(** * Dilithium vs RSA benchmark harness: a shallow embedding

    The development follows the C++ sources file by file:
    - [Benchmark]        : Benchmark.hpp / Benchmark.cpp (timing loop and statistics),
    - [DilithiumWrapper] : Dilithiumwrapper.hpp / Dilithiumwrapper.cpp,
    - [RSABenchmark]     : RSABenchmark.hpp / RSABenchmark.cpp,
    - [Main]             : the detailed analysis block of main.cpp,
    - [LatticeSession], [RSASession] : sequences of calls on one object,
    - [RandomMessage], [Report]      : the rest of Benchmark.cpp (test
                                       message, printed table),
    - [Demonstration], [Suite]       : demonstrateBasicUsage and the
                                       Dilithium3 part of
                                       runComprehensiveBenchmark in main.cpp.

    A C++ [double] is an IEEE-754 binary64 number and is modelled by Rocq's
    primitive [float], whose operations are specified by [SpecFloat]; integers
    are [Z]; byte vectors are [list byte]. *)

From Stdlib Require Import ZArith List Bool Lia.
From Stdlib Require String.
From Stdlib.Strings Require Byte.
From Stdlib Require Import Floats.
From Stdlib Require Uint63.
Import ListNotations.

Set Implicit Arguments.

(* ================================================================== *)
(** * Benchmark.cpp *)
(* ================================================================== *)

Module Benchmark.

Local Open Scope float_scope.

(** [struct Result] of Benchmark.hpp. *)
Record Result : Type := mkResult {
  averageTime : float;
  minTime     : float;
  maxTime     : float;
  stdDev      : float;
  iterations  : nat
}.

(** Conversion of a [size_t] count to [double].  Vectors of doubles hold
    fewer than 2^60 elements, so the count always fits the 63-bit
    primitive integers. *)
Definition of_size_t (n : nat) : float :=
  of_uint63 (Uint63.of_Z (Z.of_nat n)).

(** Conversion of the signed 64-bit [duration.count()] to [double]:
    round-to-nearest-even is symmetric, so the magnitude is converted and
    the sign restored; the magnitude 2^63 of the most negative value is
    a power of two and is built exactly. *)
Definition of_int64 (d : Z) : float :=
  if (0 <=? d)%Z then of_uint63 (Uint63.of_Z d)
  else if (d =? - 9223372036854775808)%Z
       then - (of_uint63 (Uint63.of_Z 4611686018427387904) * 2)
       else - of_uint63 (Uint63.of_Z (- d)).

(** [std::vector<double>::max_size()]: [reserve] throws [std::length_error]
    above it. *)
Definition vector_max_size : Z := 1152921504606846975.

(** [std::accumulate(first, last, init)]. *)
Definition accumulate (xs : list float) (init : float) : float :=
  fold_left (fun acc x => acc + x) xs init.

(** [*std::min_element(first, last)] on a range whose first element is [x]:
    the iterator moves only to a strictly smaller element. *)
Definition min_element (x : float) (xs : list float) : float :=
  fold_left (fun smallest y => if y <? smallest then y else smallest) xs x.

(** [*std::max_element(first, last)]: the iterator moves only to a strictly
    larger element. *)
Definition max_element (x : float) (xs : list float) : float :=
  fold_left (fun largest y => if largest <? y then y else largest) xs x.

(** [Benchmark::calculateStdDev]. *)
Definition calculateStdDev (values : list float) (mean : float) : float :=
  let sumSquaredDiff :=
    fold_left (fun acc value => let diff := value - mean in acc + diff * diff)
              values 0 in
  PrimFloat.sqrt (sumSquaredDiff / of_size_t (length values)).

(** The statistics part of [Benchmark::run] (lines 22-29).  On an empty
    sample vector the source dereferences [end()]: no result. *)
Definition reduce (times : list float) (iters : nat) : option Result :=
  match times with
  | [] => None
  | x :: rest =>
      let sum := accumulate times 0 in
      let mean := sum / of_size_t (length times) in
      let minT := min_element x rest in
      let maxT := max_element x rest in
      let sd := calculateStdDev times mean in
      Some (mkResult mean minT maxT sd iters)
  end.

Section Run.

(** The world the timed operation acts on, and the clock read from it. *)
Variable World : Type.

(** [std::chrono::high_resolution_clock::now()], as a tick count. *)
Variable now : World -> Z * World.

(** The clock's tick period in microseconds, as the ratio
    [us_num / us_den] (1/1000 for a nanosecond clock). *)
Variables us_num us_den : Z.

(** [duration_cast<microseconds>]: integer conversion truncating toward
    zero. *)
Definition duration_cast_us (ticks : Z) : Z :=
  Z.quot (ticks * us_num) us_den.

(** The sample pushed at line 19: [duration.count() / 1000.0]. *)
Definition sample_of_us (d : Z) : float := of_int64 d / 1000.

(** One pass of the loop body (lines 14-19): the pair of clock readings
    and the world after it. *)
Definition iteration (func : World -> World) (w : World) : (Z * Z) * World :=
  let (start, w1) := now w in
  let w2 := func w1 in
  let (end_, w3) := now w2 in
  ((start, end_), w3).

(** The timing loop (lines 13-20), with [times] as accumulated so far. *)
Fixpoint run_loop (func : World -> World) (i : nat) (w : World)
         (times : list float) : list float * World :=
  match i with
  | O => (times, w)
  | S i' =>
      let '((start, end_), w') := iteration func w in
      let duration := duration_cast_us (end_ - start) in
      run_loop func i' w' (times ++ [sample_of_us duration])
  end.

(** [Benchmark::run]. *)
Definition run (func : World -> World) (iters : nat) (w : World)
  : option (Result * World) :=
  if (vector_max_size <? Z.of_nat iters)%Z then None
  else
    let (times, w') := run_loop func iters w [] in
    match reduce times iters with
    | None => None
    | Some r => Some (r, w')
    end.

(** The clock readings of the [i] iterations, in order. *)
Fixpoint readings (func : World -> World) (i : nat) (w : World)
  : list (Z * Z) :=
  match i with
  | O => []
  | S i' =>
      let '(se, w') := iteration func w in
      se :: readings func i' w'
  end.

End Run.

(** The sample recorded for one pair of clock readings. *)
Definition sample_of_readings (us_num us_den : Z) (se : Z * Z) : float :=
  sample_of_us (duration_cast_us us_num us_den (snd se - fst se)).

(** The samples gathered by a call of [run]: the vector [times] when the
    loop ends. *)
Definition samples (World : Type) (now : World -> Z * World)
           (us_num us_den : Z) (func : World -> World) (iters : nat)
           (w : World) : list float :=
  fst (run_loop now us_num us_den func iters w []).

(** ** The reduction as the specification words it *)

(** Sum of a sequence in index order, starting from zero. *)
Definition sum_seq (xs : list float) : float := fold_left PrimFloat.add xs 0.

(** Population standard deviation about a given mean:
    sqrt( sum (x_i - mean)^2 / n ). *)
Definition population_std_dev (xs : list float) (mean : float) : float :=
  PrimFloat.sqrt (sum_seq (map (fun x => (x - mean) * (x - mean)) xs)
        / of_size_t (length xs)).

(** Sample standard deviation (divisor n - 1), for contrast. *)
Definition sample_std_dev (xs : list float) (mean : float) : float :=
  PrimFloat.sqrt (sum_seq (map (fun x => (x - mean) * (x - mean)) xs)
        / of_size_t (length xs - 1)).

(** ** A synthetic operation for concrete runs

    The world is the pair of an iteration counter and the current time in
    nanosecond ticks; reading the clock does not advance it. *)
Definition SimWorld : Type := (nat * Z)%type.

Definition sim_now (w : SimWorld) : Z * SimWorld := (snd w, w).

(** Sleeps [delay k] nanoseconds in its [k]-th call. *)
Definition sim_sleep (delay : nat -> Z) (w : SimWorld) : SimWorld :=
  (S (fst w), (snd w + delay (fst w))%Z).

Definition sim_run (delay : nat -> Z) (iters : nat) : option (Result * SimWorld) :=
  run sim_now 1 1000 (sim_sleep delay) iters (O, 0%Z).

(** The synthetic operation sleeping 1 ms, 2 ms and 3 ms in turn. *)
Definition sleep_1_2_3 (k : nat) : Z := (Z.of_nat (S k) * 1000000)%Z.

(** The synthetic operation taking the same [ns] nanoseconds in every call. *)
Definition constant_delay (ns : Z) (k : nat) : Z := ns.

(** Whole microsecond counts below one millisecond. *)
Definition submillisecond_counts : list Z := map Z.of_nat (seq 1 999).

Definition strictly_between_0_and_1 (x : float) : bool :=
  (0 <? x) && (x <? 1).

End Benchmark.

(* ================================================================== *)
(** * Dilithiumwrapper.cpp *)
(* ================================================================== *)

Module DilithiumWrapper.

Definition bytes : Type := list Byte.byte.

(** Dilithium3 parameters (Dilithiumwrapper.hpp). *)
Definition PUBLIC_KEY_BYTES : nat := 1952.
Definition SECRET_KEY_BYTES : nat := 4032.
Definition SIGNATURE_BYTES  : nat := 3309.

(** The data members of the class. *)
Record t : Type := mk {
  publicKey_     : bytes;
  secretKey_     : bytes;
  keysGenerated_ : bool
}.

(** [std::vector<uint8_t>(n, 0)]. *)
Definition zeros (n : nat) : bytes := repeat Byte.x00 n.

(** [std::vector::resize(n)]: truncate, or extend with zero bytes. *)
Definition resize (v : bytes) (n : nat) : bytes :=
  firstn n v ++ zeros (n - length v).

(** [std::vector<uint8_t>::max_size()]: [resize] throws
    [std::length_error] above it. *)
Definition max_size : Z := 9223372036854775807.

(** The constructor. *)
Definition create : t :=
  mk (zeros PUBLIC_KEY_BYTES) (zeros SECRET_KEY_BYTES) false.

(** [hasKeys()]. *)
Definition hasKeys (s : t) : bool := keysGenerated_ s.

Definition getPublicKey (s : t) : bytes := publicKey_ s.
Definition getSecretKey (s : t) : bytes := secretKey_ s.

(** [setPublicKey]: the result and the object afterwards. *)
Definition setPublicKey (s : t) (pubkey : bytes) : bool * t :=
  if negb (Nat.eqb (length pubkey) PUBLIC_KEY_BYTES) then (false, s)
  else (true, mk pubkey (secretKey_ s) (keysGenerated_ s)).

(** [setSecretKey]. *)
Definition setSecretKey (s : t) (seckey : bytes) : bool * t :=
  if negb (Nat.eqb (length seckey) SECRET_KEY_BYTES) then (false, s)
  else (true, mk (publicKey_ s) seckey true).

(** [secureWipe(data, size)] over a whole buffer: every byte becomes 0. *)
Definition secureWipe (data : bytes) : bytes := zeros (length data).

(** The destructor. *)
Definition destroy (s : t) : t :=
  mk (publicKey_ s) (secureWipe (secretKey_ s)) (keysGenerated_ s).

(** The external pq-crystals reference implementation (api.h), which is not
    part of the repository.  [Env] is whatever state the library draws on
    (its randomness).  Each function receives the buffers it is handed by
    pointer and returns their contents afterwards together with its return
    code; [None] for the code stands for an exception escaping the call,
    which the wrappers' catch-all handlers absorb. *)
Record Primitives (Env : Type) : Type := {
  ref_keypair   : Env -> bytes -> bytes -> Env * (bytes * bytes * option Z);
  ref_signature : Env -> bytes -> bytes -> bytes
                  -> Env * option (Z * bytes * nat);
  ref_verify    : bytes -> bytes -> bytes -> option Z
}.

Section Operations.

Variable Env : Type.
Variable P : Primitives Env.

(** [generateKeys]: the primitive writes through [publicKey_.data()] and
    [secretKey_.data()]; the flag is set only on return code 0. *)
Definition generateKeys (s : t) (e : Env) : Env * (bool * t) :=
  let '(e', (pk, sk, result)) := ref_keypair P e (publicKey_ s) (secretKey_ s) in
  match result with
  | Some rc =>
      if negb (rc =? 0)%Z then (e', (false, mk pk sk (keysGenerated_ s)))
      else (e', (true, mk pk sk true))
  | None => (e', (false, mk pk sk (keysGenerated_ s)))
  end.

(** [generate_keys] as the specification words it: the secret material
    held is zeroed, then the new pair is produced. *)
Definition spec_generate_keys (s : t) (e : Env) : Env * (bool * t) :=
  generateKeys (mk (publicKey_ s) (secureWipe (secretKey_ s)) (keysGenerated_ s))
               e.

(** [sign].  Everything after the test of the flag is inside [try]: a
    reported length above [max_size] makes [resize] throw
    [std::length_error], and the handler returns the empty vector. *)
Definition sign (s : t) (e : Env) (message : bytes) : Env * bytes :=
  if negb (keysGenerated_ s) then (e, [])
  else
    let signature := zeros SIGNATURE_BYTES in
    let '(e', out) := ref_signature P e signature message (secretKey_ s) in
    match out with
    | Some (rc, signature', signatureLength) =>
        if negb (rc =? 0)%Z then (e', [])
        else if (max_size <? Z.of_nat signatureLength)%Z
             then (e', [])
             else (e', resize signature' signatureLength)
    | None => (e', [])
    end.

(** [verify]. *)
Definition verify (s : t) (message signature : bytes) : bool :=
  if negb (keysGenerated_ s) then false
  else
    match ref_verify P signature message (publicKey_ s) with
    | Some rc => (rc =? 0)%Z
    | None => false
    end.

End Operations.

(** ** Concrete primitives for closed examples *)

(** A keypair routine that writes the two given keys and returns [rc]. *)
Definition fixed_keypair (pk sk : bytes) (rc : Z)
  : unit -> bytes -> bytes -> unit * (bytes * bytes * option Z) :=
  fun e _ _ => (e, (pk, sk, Some rc)).

(** A keypair routine that fails with [rc] without touching the buffers. *)
Definition failing_keypair (rc : Z)
  : unit -> bytes -> bytes -> unit * (bytes * bytes * option Z) :=
  fun e pk sk => (e, (pk, sk, Some rc)).

(** Signing and verification routines that accept everything. *)
Definition echo_signature
  : unit -> bytes -> bytes -> bytes -> unit * option (Z * bytes * nat) :=
  fun e sigbuf message _ => (e, Some (0%Z, message ++ sigbuf, length message)).

Definition accept_verify : bytes -> bytes -> bytes -> option Z :=
  fun _ _ _ => Some 0%Z.

Definition toy (keypair : unit -> bytes -> bytes -> unit * (bytes * bytes * option Z))
  : Primitives unit :=
  {| ref_keypair := keypair;
     ref_signature := echo_signature;
     ref_verify := accept_verify |}.

(** A lattice object holding a key pair, with no zero byte in its secret
    key. *)
Definition lattice_with_keys : t :=
  mk (repeat Byte.x03 1952) (repeat Byte.x07 4032) true.

(** The keys a keypair routine writes in the examples. *)
Definition next_secret_key : bytes := repeat Byte.x09 4032.

Definition next_public_key : bytes := repeat Byte.x05 1952.

(** A keypair routine that returns 0 having written only the first [n]
    bytes of each buffer. *)
Definition partial_keypair (n : nat)
  : unit -> bytes -> bytes -> unit * (bytes * bytes * option Z) :=
  fun e pk sk =>
    (e, (firstn n next_public_key ++ skipn n pk,
         firstn n next_secret_key ++ skipn n sk, Some 0%Z)).

(** The output of the keypair routine does not depend on what the two
    buffers held before the call. *)
Definition keypair_ignores_buffers (Env : Type) (P : Primitives Env) : Prop :=
  forall e pk sk pk' sk',
    length pk = length pk' -> length sk = length sk' ->
    ref_keypair P e pk sk = ref_keypair P e pk' sk'.

(** A toy notion of matching pair: the public key repeats the first byte of
    the secret key. *)
Definition first_byte_matching (pk sk : bytes) : Prop :=
  hd Byte.x00 pk = hd Byte.x00 sk.

End DilithiumWrapper.

(* ================================================================== *)
(** * RSABenchmark.cpp *)
(* ================================================================== *)

Module RSABenchmark.

Definition bytes : Type := list Byte.byte.

(** Handles to objects owned by OpenSSL ([EVP_PKEY*], [EVP_PKEY_CTX*],
    [EVP_MD_CTX*]); a null pointer is [None]. *)
Definition EVP_PKEY : Type := nat.
Definition EVP_PKEY_CTX : Type := nat.
Definition EVP_MD_CTX : Type := nat.

(** Key algorithm identifiers, digests and RSA padding modes of OpenSSL. *)
Inductive pkey_id : Type := EVP_PKEY_RSA | EVP_PKEY_RSA_PSS.
Inductive digest : Type := EVP_sha256.
Inductive rsa_padding : Type := RSA_PKCS1_PADDING | RSA_PKCS1_PSS_PADDING.

(** The data members of the class. *)
Record t : Type := mk {
  keySize_   : Z;
  pkey_      : option EVP_PKEY;
  signCtx_   : option EVP_PKEY_CTX;
  verifyCtx_ : option EVP_PKEY_CTX
}.

(** The constructor. *)
Definition create (keySize : Z) : t := mk keySize None None None.

(** [hasKeys()]: [pkey_ != nullptr]. *)
Definition hasKeys (s : t) : bool :=
  match pkey_ s with Some _ => true | None => false end.

(** Conversion of an [int] expression to [size_t]. *)
Definition to_size_t (z : Z) : Z := z mod 2 ^ 64.

Definition getPublicKeySize (s : t) : Z :=
  match pkey_ s with
  | None => 0
  | Some _ => to_size_t (Z.quot (keySize_ s) 8 + 32)
  end.

Definition getPrivateKeySize (s : t) : Z :=
  match pkey_ s with
  | None => 0
  | Some _ => to_size_t (Z.quot (keySize_ s) 8 * 5)
  end.

Definition getSignatureSize (s : t) : Z := to_size_t (Z.quot (keySize_ s) 8).

(** The OpenSSL functions the class calls, over the library's state [Env].
    Functions returning a pointer return an [option]; functions with an
    [int] status return it as [Z].

    - [EVP_PKEY_keygen] receives the current value of [*ppkey] and returns
      the value it leaves there;
    - [EVP_DigestSignInit] and [EVP_DigestVerifyInit] receive whether a
      [pctx] out-pointer was supplied, the digest and the key;
    - [EVP_DigestSign] receives the signature buffer ([None] for a null
      pointer) and the length passed in, and returns the buffer and length
      it leaves. *)
Record OpenSSL (Env : Type) : Type := {
  EVP_PKEY_CTX_new_id : Env -> pkey_id -> Env * option EVP_PKEY_CTX;
  EVP_PKEY_keygen_init : Env -> EVP_PKEY_CTX -> Env * Z;
  EVP_PKEY_CTX_set_rsa_keygen_bits : Env -> EVP_PKEY_CTX -> Z -> Env * Z;
  EVP_PKEY_keygen :
    Env -> EVP_PKEY_CTX -> option EVP_PKEY -> Env * (Z * option EVP_PKEY);
  EVP_PKEY_CTX_free : Env -> EVP_PKEY_CTX -> Env;
  EVP_PKEY_free : Env -> EVP_PKEY -> Env;
  EVP_MD_CTX_new : Env -> Env * option EVP_MD_CTX;
  EVP_MD_CTX_free : Env -> EVP_MD_CTX -> Env;
  EVP_DigestSignInit :
    Env -> EVP_MD_CTX -> bool -> digest -> EVP_PKEY -> Env * Z;
  EVP_DigestSign :
    Env -> EVP_MD_CTX -> option bytes -> nat -> bytes
    -> Env * (Z * option bytes * nat);
  EVP_DigestVerifyInit :
    Env -> EVP_MD_CTX -> bool -> digest -> EVP_PKEY -> Env * Z;
  EVP_DigestVerify : Env -> EVP_MD_CTX -> bytes -> bytes -> Env * Z
}.

(** [std::vector::resize(n)]. *)
Definition resize (v : bytes) (n : nat) : bytes :=
  firstn n v ++ repeat Byte.x00 (n - length v).

(** [std::vector<uint8_t>::max_size()]: the constructor [vector(n)] and
    [resize(n)] throw [std::length_error] above it. *)
Definition max_size : Z := 9223372036854775807.

Section Operations.

Variable Env : Type.
Variable L : OpenSSL Env.

(** [cleanup()]: frees whatever is held and nulls the three pointers. *)
Definition cleanup (s : t) (e : Env) : Env * t :=
  let e1 := match signCtx_ s with
            | Some c => EVP_PKEY_CTX_free L e c
            | None => e
            end in
  let e2 := match verifyCtx_ s with
            | Some c => EVP_PKEY_CTX_free L e1 c
            | None => e1
            end in
  let e3 := match pkey_ s with
            | Some k => EVP_PKEY_free L e2 k
            | None => e2
            end in
  (e3, mk (keySize_ s) None None None).

(** The destructor. *)
Definition destroy (s : t) (e : Env) : Env * t := cleanup s e.

(** [generateKeys()]. *)
Definition generateKeys (s : t) (e : Env) : Env * (bool * t) :=
  let (e0, s0) := cleanup s e in
  let (e1, ctx) := EVP_PKEY_CTX_new_id L e0 EVP_PKEY_RSA in
  match ctx with
  | None => (e1, (false, s0))
  | Some c =>
      let (e2, rc_init) := EVP_PKEY_keygen_init L e1 c in
      if (rc_init <=? 0)%Z then (EVP_PKEY_CTX_free L e2 c, (false, s0))
      else
        let (e3, rc_bits) :=
          EVP_PKEY_CTX_set_rsa_keygen_bits L e2 c (keySize_ s0) in
        if (rc_bits <=? 0)%Z then (EVP_PKEY_CTX_free L e3 c, (false, s0))
        else
          let '(e4, (rc_gen, pkey)) := EVP_PKEY_keygen L e3 c (pkey_ s0) in
          let s1 := mk (keySize_ s0) pkey (signCtx_ s0) (verifyCtx_ s0) in
          if (rc_gen <=? 0)%Z then (EVP_PKEY_CTX_free L e4 c, (false, s1))
          else (EVP_PKEY_CTX_free L e4 c, (true, s1))
  end.

(** [sign(message)].  The function has no handler: [None] for the result
    is a [std::length_error] leaving it, thrown by the vector's constructor
    (line 90, the digest context still held) or by [resize] (line 100,
    after the context was freed). *)
Definition sign (s : t) (e : Env) (message : bytes) : Env * option bytes :=
  match pkey_ s with
  | None => (e, Some [])
  | Some pkey =>
      let (e1, md) := EVP_MD_CTX_new L e in
      match md with
      | None => (e1, Some [])
      | Some mdctx =>
          let (e2, rc_init) :=
            EVP_DigestSignInit L e1 mdctx false EVP_sha256 pkey in
          if (rc_init <=? 0)%Z then (EVP_MD_CTX_free L e2 mdctx, Some [])
          else
            let '(e3, (rc_len, _, sigLen)) :=
              EVP_DigestSign L e2 mdctx None 0 message in
            if (rc_len <=? 0)%Z then (EVP_MD_CTX_free L e3 mdctx, Some [])
            else if (max_size <? Z.of_nat sigLen)%Z then (e3, None)
            else
              let signature := repeat Byte.x00 sigLen in
              let '(e4, (rc_sig, buf, sigLen')) :=
                EVP_DigestSign L e3 mdctx (Some signature) sigLen message in
              if (rc_sig <=? 0)%Z then (EVP_MD_CTX_free L e4 mdctx, Some [])
              else
                let e5 := EVP_MD_CTX_free L e4 mdctx in
                if (max_size <? Z.of_nat sigLen')%Z then (e5, None)
                else
                  (e5,
                   Some (resize (match buf with
                                 | Some b => b
                                 | None => signature
                                 end) sigLen'))
      end
  end.

(** [verify(message, signature)]. *)
Definition verify (s : t) (e : Env) (message signature : bytes) : Env * bool :=
  match pkey_ s with
  | None => (e, false)
  | Some pkey =>
      let (e1, md) := EVP_MD_CTX_new L e in
      match md with
      | None => (e1, false)
      | Some mdctx =>
          let (e2, rc_init) :=
            EVP_DigestVerifyInit L e1 mdctx false EVP_sha256 pkey in
          if (rc_init <=? 0)%Z then (EVP_MD_CTX_free L e2 mdctx, false)
          else
            let (e3, result) := EVP_DigestVerify L e2 mdctx signature message in
            (EVP_MD_CTX_free L e3 mdctx, (result =? 1)%Z)
      end
  end.

End Operations.

(** ** A logging stand-in for OpenSSL, for closed examples

    The library state records every call, hands out fresh handles, and
    answers status codes from a plan (1, success, once the plan is used
    up).  Each key context and key remembers its algorithm identifier and
    bit length. *)

Inductive call : Type :=
| Call_PKEY_CTX_new_id (id : pkey_id)
| Call_keygen_init (c : EVP_PKEY_CTX)
| Call_set_rsa_keygen_bits (c : EVP_PKEY_CTX) (bits : Z)
| Call_keygen (c : EVP_PKEY_CTX)
| Call_PKEY_CTX_free (c : EVP_PKEY_CTX)
| Call_PKEY_free (k : EVP_PKEY)
| Call_MD_CTX_new
| Call_MD_CTX_free (m : EVP_MD_CTX)
| Call_DigestSignInit (m : EVP_MD_CTX) (pctx : bool) (md : digest) (k : EVP_PKEY)
| Call_DigestSign (m : EVP_MD_CTX) (probe : bool)
| Call_DigestVerifyInit (m : EVP_MD_CTX) (pctx : bool) (md : digest) (k : EVP_PKEY)
| Call_DigestVerify (m : EVP_MD_CTX)
| Call_set_rsa_padding (m : EVP_MD_CTX) (p : rsa_padding).

Record Sim : Type := mkSim {
  sim_log  : list call;
  sim_plan : list Z;
  sim_next : nat;
  sim_ctxs : list (EVP_PKEY_CTX * (pkey_id * Z));
  sim_keys : list (EVP_PKEY * (pkey_id * Z))
}.

Definition sim_init (plan : list Z) : Sim := mkSim [] plan 1 [] [].

(** Record a call and take the next status code of the plan. *)
Definition sim_step (e : Sim) (c : call) : Sim * Z :=
  match sim_plan e with
  | [] => (mkSim (sim_log e ++ [c]) [] (sim_next e) (sim_ctxs e) (sim_keys e), 1%Z)
  | rc :: plan =>
      (mkSim (sim_log e ++ [c]) plan (sim_next e) (sim_ctxs e) (sim_keys e), rc)
  end.

(** Record a call that returns nothing. *)
Definition sim_note (e : Sim) (c : call) : Sim :=
  mkSim (sim_log e ++ [c]) (sim_plan e) (sim_next e) (sim_ctxs e) (sim_keys e).

Fixpoint assoc {A : Type} (k : nat) (l : list (nat * A)) : option A :=
  match l with
  | [] => None
  | (k', v) :: l' => if Nat.eqb k k' then Some v else assoc k l'
  end.

(** The modulus length in bytes of a key of [bits] bits, the bit length
    being a C [int]. *)
Definition sim_modulus_bytes (bits : Z) : nat :=
  Z.to_nat (Z.quot (Z.min bits 2147483647) 8).

Definition sim_signature_of (bits : Z) (message : bytes) : bytes :=
  firstn (sim_modulus_bytes bits)
         (message ++ repeat Byte.x01 (sim_modulus_bytes bits)).

Definition SimSSL : OpenSSL Sim := {|
  EVP_PKEY_CTX_new_id := fun e id =>
    let (e1, rc) := sim_step e (Call_PKEY_CTX_new_id id) in
    if (rc <=? 0)%Z then (e1, None)
    else
      let c := sim_next e1 in
      (mkSim (sim_log e1) (sim_plan e1) (S c)
             ((c, (id, 2048%Z)) :: sim_ctxs e1) (sim_keys e1), Some c);
  EVP_PKEY_keygen_init := fun e c => sim_step e (Call_keygen_init c);
  EVP_PKEY_CTX_set_rsa_keygen_bits := fun e c bits =>
    let (e1, rc) := sim_step e (Call_set_rsa_keygen_bits c bits) in
    if (rc <=? 0)%Z then (e1, rc)
    else
      match assoc c (sim_ctxs e1) with
      | Some (id, _) =>
          (mkSim (sim_log e1) (sim_plan e1) (sim_next e1)
                 ((c, (id, bits)) :: sim_ctxs e1) (sim_keys e1), rc)
      | None => (e1, rc)
      end;
  EVP_PKEY_keygen := fun e c ppkey =>
    let (e1, rc) := sim_step e (Call_keygen c) in
    if (rc <=? 0)%Z then (e1, (rc, ppkey))
    else
      let k := sim_next e1 in
      let info := match assoc c (sim_ctxs e1) with
                  | Some i => i
                  | None => (EVP_PKEY_RSA, 2048%Z)
                  end in
      (mkSim (sim_log e1) (sim_plan e1) (S k) (sim_ctxs e1)
             ((k, info) :: sim_keys e1), (rc, Some k));
  EVP_PKEY_CTX_free := fun e c => sim_note e (Call_PKEY_CTX_free c);
  EVP_PKEY_free := fun e k => sim_note e (Call_PKEY_free k);
  EVP_MD_CTX_new := fun e =>
    let (e1, rc) := sim_step e Call_MD_CTX_new in
    if (rc <=? 0)%Z then (e1, None)
    else
      let m := sim_next e1 in
      (mkSim (sim_log e1) (sim_plan e1) (S m) (sim_ctxs e1) (sim_keys e1),
       Some m);
  EVP_MD_CTX_free := fun e m => sim_note e (Call_MD_CTX_free m);
  EVP_DigestSignInit := fun e m pctx md k =>
    sim_step e (Call_DigestSignInit m pctx md k);
  EVP_DigestSign := fun e m buf len message =>
    let (e1, rc) := sim_step e (Call_DigestSign m
                                  (match buf with None => true | _ => false end)) in
    let bits := match sim_keys e1 with
                | (_, (_, b)) :: _ => b
                | [] => 2048%Z
                end in
    match buf with
    | None => (e1, (rc, None, sim_modulus_bytes bits))
    | Some _ =>
        (e1, (rc, Some (sim_signature_of bits message), sim_modulus_bytes bits))
    end;
  EVP_DigestVerifyInit := fun e m pctx md k =>
    sim_step e (Call_DigestVerifyInit m pctx md k);
  EVP_DigestVerify := fun e m signature message =>
    sim_step e (Call_DigestVerify m)
|}.

(** The padding mode in force for the digest context [m] after the calls of
    [log].  OpenSSL gives the key context created by [EVP_DigestSignInit] /
    [EVP_DigestVerifyInit] the default of the key's algorithm (PKCS #1 v1.5
    for [EVP_PKEY_RSA], PSS for [EVP_PKEY_RSA_PSS]); only a later
    [EVP_PKEY_CTX_set_rsa_padding] on that context changes it. *)
Definition default_padding (id : pkey_id) : rsa_padding :=
  match id with
  | EVP_PKEY_RSA => RSA_PKCS1_PADDING
  | EVP_PKEY_RSA_PSS => RSA_PKCS1_PSS_PADDING
  end.

Fixpoint padding_after (keys : list (EVP_PKEY * (pkey_id * Z)))
         (m : EVP_MD_CTX) (log : list call) (cur : option rsa_padding)
  : option rsa_padding :=
  match log with
  | [] => cur
  | c :: log' =>
      let cur' :=
        match c with
        | Call_DigestSignInit m' _ _ k
        | Call_DigestVerifyInit m' _ _ k =>
            if Nat.eqb m m'
            then match assoc k keys with
                 | Some (id, _) => Some (default_padding id)
                 | None => cur
                 end
            else cur
        | Call_set_rsa_padding m' p => if Nat.eqb m m' then Some p else cur
        | _ => cur
        end in
      padding_after keys m log' cur'
  end.

Definition padding_in_force (e : Sim) (m : EVP_MD_CTX) : option rsa_padding :=
  padding_after (sim_keys e) m (sim_log e) None.

(** The digest contexts initialised for signing, resp. verification. *)
Definition sign_contexts (log : list call) : list EVP_MD_CTX :=
  flat_map (fun c => match c with
                     | Call_DigestSignInit m _ _ _ => [m]
                     | _ => []
                     end) log.

Definition verify_contexts (log : list call) : list EVP_MD_CTX :=
  flat_map (fun c => match c with
                     | Call_DigestVerifyInit m _ _ _ => [m]
                     | _ => []
                     end) log.

(** The object [cleanup] leaves. *)
Definition cleared (s : t) : t := mk (keySize_ s) None None None.

(** The OpenSSL contract of [EVP_PKEY_keygen] of the provider: called with
    [*ppkey] null, a failing call leaves it null. *)
Definition keygen_failure_leaves_null (Env : Type) (L : OpenSSL Env) : Prop :=
  forall e c e' rc k,
    EVP_PKEY_keygen L e c None = (e', (rc, k)) -> (rc <= 0)%Z -> k = None.

(** An RSA-2048 object holding key handle 2, as left by a successful
    [generateKeys] on the logging library. *)
Definition rsa_with_key : t * Sim :=
  let '(e, (_, s)) := generateKeys SimSSL (create 2048) (sim_init []) in
  (s, e).

(** The same library state with a plan that lets the next context creation
    and initialisation succeed and the key-size setting fail. *)
Definition failing_at_bits (e : Sim) : Sim :=
  mkSim (sim_log e) [1; 1; 0]%Z (sim_next e) (sim_ctxs e) (sim_keys e).

(** Key generation followed by one signature and one verification on the
    logging library, everything succeeding; an exception leaving [sign]
    would end the run there. *)
Definition keygen_sign_verify (keySize : Z) (message : bytes)
  : bool * bytes * bool * Sim :=
  let '(e1, (ok, s1)) :=
    generateKeys SimSSL (create keySize) (sim_init []) in
  let '(e2, signed) := sign SimSSL s1 e1 message in
  match signed with
  | None => (ok, [], false, e2)
  | Some signature =>
      let '(e3, valid) := verify SimSSL s1 e2 message signature in
      (ok, signature, valid, e3)
  end.

End RSABenchmark.

(* ================================================================== *)
(** * main.cpp: the detailed analysis block *)
(* ================================================================== *)

Module Main.

Import Benchmark.
Import String.
Local Open Scope float_scope.

(** One line of the speed comparison: its label, the ratio printed with
    two decimals, and the word printed after the "x". *)
Record speed_line : Type := mkLine {
  line_label : String.string;
  line_ratio : float;
  line_word  : String.string
}.

(** The conditional [a > b ? "slower" : "faster"] on doubles. *)
Definition slower_or_faster (a b : float) : String.string :=
  if b <? a then "slower"%string else "faster"%string.

(** The six lines printed under "Speed Comparison (vs Dilithium3)"
    (main.cpp lines 153-174), in order. *)
Definition speed_comparison
  (dilithiumKeyGen dilithiumSign dilithiumVerify : Result)
  (rsa2048KeyGen rsa2048Sign rsa2048Verify : Result)
  (rsa3072KeyGen rsa3072Sign rsa3072Verify : Result) : list speed_line :=
  [ mkLine "RSA-2048 KeyGen"
           (averageTime rsa2048KeyGen / averageTime dilithiumKeyGen)
           "slower";
    mkLine "RSA-3072 KeyGen"
           (averageTime rsa3072KeyGen / averageTime dilithiumKeyGen)
           "slower";
    mkLine "RSA-2048 Signing"
           (averageTime rsa2048Sign / averageTime dilithiumSign)
           (slower_or_faster (averageTime rsa2048Sign) (averageTime dilithiumSign));
    mkLine "RSA-3072 Signing"
           (averageTime rsa3072Sign / averageTime dilithiumSign)
           (slower_or_faster (averageTime rsa3072Sign) (averageTime dilithiumSign));
    mkLine "RSA-2048 Verification"
           (averageTime rsa2048Verify / averageTime dilithiumVerify)
           (slower_or_faster (averageTime rsa2048Verify) (averageTime dilithiumVerify));
    mkLine "RSA-3072 Verification"
           (averageTime rsa3072Verify / averageTime dilithiumVerify)
           (slower_or_faster (averageTime rsa3072Verify) (averageTime dilithiumVerify)) ].

(** The annotation the comparison of the two averages calls for. *)
Definition expected_word (rsa dilithium : Result) : String.string :=
  slower_or_faster (averageTime rsa) (averageTime dilithium).

(** A result with the given average, the other fields immaterial here. *)
Definition with_average (avg : float) : Result := mkResult avg avg avg 0 1.

End Main.

Module D := DilithiumWrapper.
Module R := RSABenchmark.

(* ================================================================== *)
(** * Sessions on a lattice object *)
(* ================================================================== *)

Module LatticeSession.

Import DilithiumWrapper.

(** Both key buffers have the sizes the constructor gave them. *)
Definition well_sized (s : t) : Prop :=
  length (publicKey_ s) = PUBLIC_KEY_BYTES
  /\ length (secretKey_ s) = SECRET_KEY_BYTES.

(** The keypair routine writes through the two pointers it is given: the
    vectors behind them keep their lengths. *)
Definition keypair_keeps_lengths (Env : Type) (P : Primitives Env) : Prop :=
  forall e pk sk,
    length (fst (fst (snd (ref_keypair P e pk sk)))) = length pk
    /\ length (snd (fst (snd (ref_keypair P e pk sk)))) = length sk.

(** The member functions a caller can invoke on a live object. *)
Inductive call : Type :=
| GenerateKeys
| SetPublicKey (pubkey : bytes)
| SetSecretKey (seckey : bytes)
| Sign (message : bytes)
| Verify (message signature : bytes).

(** The object and the library state after one call. *)
Definition after (Env : Type) (P : Primitives Env) (se : t * Env) (c : call)
  : t * Env :=
  let (s, e) := se in
  match c with
  | GenerateKeys => let '(e', (_, s')) := generateKeys P s e in (s', e')
  | SetPublicKey b => (snd (setPublicKey s b), e)
  | SetSecretKey b => (snd (setSecretKey s b), e)
  | Sign m => (s, fst (sign P s e m))
  | Verify _ _ => (s, e)
  end.

(** The keypair, signing and verification routines belong together: a
    signature produced under a generated secret key, cut to its reported
    length, verifies under the public key generated with it. *)
Definition primitives_sound (Env : Type) (P : Primitives Env) : Prop :=
  forall e pk0 sk0 e1 pk sk,
    ref_keypair P e pk0 sk0 = (e1, (pk, sk, Some 0%Z)) ->
    forall e2 buf m e3 sigbuf len,
      ref_signature P e2 buf m sk = (e3, Some (0%Z, sigbuf, len)) ->
      ref_verify P (resize sigbuf len) m pk = Some 0%Z.

(** A keypair routine deriving both keys from its state, a signing routine
    that writes the first secret-key byte followed by the message, and the
    verification routine that checks exactly that. *)
Definition demo_keypair
  : nat -> bytes -> bytes -> nat * (bytes * bytes * option Z) :=
  fun e pk sk =>
    (S e, (repeat Byte.x2a (length pk), repeat Byte.x2a (length sk), Some 0%Z)).

Definition demo_signature
  : nat -> bytes -> bytes -> bytes -> nat * option (Z * bytes * nat) :=
  fun e sigbuf message sk =>
    (e, Some (0%Z, hd Byte.x2a sk :: message ++ sigbuf, S (length message))).

Definition bytes_eqb (a b : bytes) : bool :=
  if list_eq_dec Byte.byte_eq_dec a b then true else false.

Definition demo_verify : bytes -> bytes -> bytes -> option Z :=
  fun signature message pk =>
    if bytes_eqb signature (hd Byte.x2a pk :: message)
    then Some 0%Z else Some (-1)%Z.

Definition demo : Primitives nat :=
  {| ref_keypair := demo_keypair;
     ref_signature := demo_signature;
     ref_verify := demo_verify |}.

End LatticeSession.

(* ================================================================== *)
(** * Sessions on an RSA object, with the library objects tracked *)
(* ================================================================== *)

Module RSASession.

Import RSABenchmark.

(** The member functions a caller can invoke on a live object. *)
Inductive call : Type :=
| GenerateKeys
| Sign (message : bytes)
| Verify (message signature : bytes).

(** The object and the library state after one call. *)
Definition after (Env : Type) (L : OpenSSL Env) (se : t * Env) (c : call)
  : t * Env :=
  let (s, e) := se in
  match c with
  | GenerateKeys => let '(e', (_, s')) := generateKeys L s e in (s', e')
  | Sign m => (s, fst (sign L s e m))
  | Verify m sg => (s, fst (verify L s e m sg))
  end.

(** ** A stand-in for OpenSSL that keeps account of its objects

    The library state holds the handles that are alive, the next fresh
    handle, the number of calls made so far and a fault flag.  The status
    code of the [n]-th call is [codes n], so any pattern of failures can be
    played.  Passing a handle that is not alive to any function, a free
    included, sets the fault flag for good. *)
Record Tracked : Type := mkTracked {
  tr_live  : list nat;
  tr_next  : nat;
  tr_calls : nat;
  tr_fault : bool
}.

Definition tracked_init : Tracked := mkTracked [] 1 0 false.

Definition alive (h : nat) (e : Tracked) : bool := existsb (Nat.eqb h) (tr_live e).

(** Count the call. *)
Definition tick (e : Tracked) : Tracked :=
  mkTracked (tr_live e) (tr_next e) (S (tr_calls e)) (tr_fault e).

(** The call touches handle [h]. *)
Definition touch (h : nat) (e : Tracked) : Tracked :=
  if alive h e then e
  else mkTracked (tr_live e) (tr_next e) (tr_calls e) true.

(** A fresh object comes to life. *)
Definition allocate (e : Tracked) : Tracked * nat :=
  (mkTracked (tr_next e :: tr_live e) (S (tr_next e)) (tr_calls e) (tr_fault e),
   tr_next e).

(** The object behind [h] is released. *)
Definition release (h : nat) (e : Tracked) : Tracked :=
  let e1 := touch h e in
  mkTracked (filter (fun h' => negb (Nat.eqb h h')) (tr_live e1))
            (tr_next e1) (tr_calls e1) (tr_fault e1).

Definition TrackSSL (codes : nat -> Z) : OpenSSL Tracked := {|
  EVP_PKEY_CTX_new_id := fun e _ =>
    if (codes (tr_calls e) <=? 0)%Z then (tick e, None)
    else let (e1, c) := allocate (tick e) in (e1, Some c);
  EVP_PKEY_keygen_init := fun e c => (touch c (tick e), codes (tr_calls e));
  EVP_PKEY_CTX_set_rsa_keygen_bits := fun e c _ =>
    (touch c (tick e), codes (tr_calls e));
  EVP_PKEY_keygen := fun e c ppkey =>
    let e1 := touch c (tick e) in
    if (codes (tr_calls e) <=? 0)%Z then (e1, (codes (tr_calls e), ppkey))
    else
      match ppkey with
      | Some k => (touch k e1, (codes (tr_calls e), Some k))
      | None => let (e2, k) := allocate e1 in (e2, (codes (tr_calls e), Some k))
      end;
  EVP_PKEY_CTX_free := fun e c => release c (tick e);
  EVP_PKEY_free := fun e k => release k (tick e);
  EVP_MD_CTX_new := fun e =>
    if (codes (tr_calls e) <=? 0)%Z then (tick e, None)
    else let (e1, m) := allocate (tick e) in (e1, Some m);
  EVP_MD_CTX_free := fun e m => release m (tick e);
  EVP_DigestSignInit := fun e m _ _ k =>
    (touch k (touch m (tick e)), codes (tr_calls e));
  EVP_DigestSign := fun e m buf len message =>
    (touch m (tick e),
     (codes (tr_calls e),
      match buf with Some b => Some (repeat Byte.x01 (length b)) | None => None end,
      256%nat));
  EVP_DigestVerifyInit := fun e m _ _ k =>
    (touch k (touch m (tick e)), codes (tr_calls e));
  EVP_DigestVerify := fun e m _ _ => (touch m (tick e), codes (tr_calls e))
|}.

(** What the object holds and what the library has alive agree: nothing
    has gone wrong, the two context members are null, and the only live
    library object is the key the object points to, if any. *)
Definition accounted (s : t) (e : Tracked) : Prop :=
  tr_fault e = false
  /\ signCtx_ s = None /\ verifyCtx_ s = None
  /\ tr_live e = match pkey_ s with Some k => [k] | None => [] end
  /\ match pkey_ s with Some k => k < tr_next e | None => True end.

End RSASession.

(* ================================================================== *)
(** * Benchmark.cpp: the random test message *)
(* ================================================================== *)

Module RandomMessage.

(** [static_cast<uint8_t>] of an [int]: the value modulo 256. *)
Definition uint8_of_int (z : Z) : Byte.byte :=
  match Byte.of_N (Z.to_N (z mod 256)) with
  | Some b => b
  | None => Byte.x00
  end.

Section Generator.

(** The state of the pseudo-random engine, and one draw [dis(gen)] of the
    distribution from it. *)
Variable Gen : Type.
Variable next_int : Gen -> Z * Gen.

(** The loop of [Benchmark::generateRandomMessage]: byte [i] of the message
    is the cast of the [i]-th draw. *)
Fixpoint fill (size : nat) (gen : Gen) : list Byte.byte * Gen :=
  match size with
  | O => ([], gen)
  | S n =>
      let (z, gen1) := next_int gen in
      let (rest, gen2) := fill n gen1 in
      (uint8_of_int z :: rest, gen2)
  end.

(** [Benchmark::generateRandomMessage(size)], from the seeded engine. *)
Definition generateRandomMessage (size : nat) (gen : Gen) : list Byte.byte :=
  fst (fill size gen).

(** The first [n] draws from the engine. *)
Fixpoint draws (n : nat) (gen : Gen) : list Z :=
  match n with
  | O => []
  | S n' => let (z, gen1) := next_int gen in z :: draws n' gen1
  end.

End Generator.

(** An engine that counts upwards, reduced to the range of the
    distribution. *)
Definition counting (g : Z) : Z * Z := ((g mod 256)%Z, (g + 1)%Z).

End RandomMessage.

(* ================================================================== *)
(** * Benchmark.cpp: the printed table *)
(* ================================================================== *)

Module Report.

Import Benchmark.
Import Ascii String.
Local Open Scope string_scope.

(** The line feed ["\n"]. *)
Definition newline : string := String (ascii_of_nat 10) "".

(** [std::string(n, c)]. *)
Fixpoint replicate (n : nat) (c : ascii) : string :=
  match n with
  | O => ""
  | S n' => String c (replicate n' c)
  end.

(** Insertion of a string under [std::setw(w)] and [std::left]: padded on
    the right with spaces up to the width, never cut. *)
Definition setw_left (w : nat) (s : string) : string :=
  s ++ replicate (w - length s) " ".

(** Decimal digits of an unsigned integer, as [operator<<] prints it. *)
Definition digit (d : N) : ascii := ascii_of_N (48 + d).

Fixpoint decimal_from (fuel : nat) (n : N) (acc : string) : string :=
  match fuel with
  | O => acc
  | S fuel' =>
      let acc' := String (digit (n mod 10)) acc in
      if (n / 10 =? 0)%N then acc' else decimal_from fuel' (n / 10) acc'
  end.

Definition decimal (n : N) : string :=
  decimal_from (S (N.to_nat (N.log2 n))) n "".

(** The value [m * 2^e * 10^p] rounded to an integer, to nearest and to even
    on a tie: the digits a correctly rounding [printf("%.pf")] prints. *)
Definition scaled (p : nat) (m : positive) (e : Z) : N :=
  let a := (Zpos m * 10 ^ Z.of_nat p)%Z in
  if (0 <=? e)%Z then Z.to_N (a * 2 ^ e)
  else
    let d := (2 ^ (- e))%Z in
    let q := (a / d)%Z in
    let r := (a mod d)%Z in
    Z.to_N match (2 * r ?= d)%Z with
           | Lt => q
           | Gt => (q + 1)%Z
           | Eq => if Z.even q then q else (q + 1)%Z
           end.

(** The [p] digits after the decimal point of a scaled value. *)
Definition fraction_digits (p : nat) (n : N) : string :=
  string_of_list_ascii
    (map (fun i => digit ((n / 10 ^ N.of_nat i) mod 10)) (rev (seq 0 p))).

Section Printing.

(** The sign bit of the NaNs the program's arithmetic produces: set where
    the default NaN of the processor is negative (x86-64), clear where it is
    positive.  The doubles of this development have a single NaN, so the bit
    is a parameter of the functions that print doubles; a NaN with the bit
    set prints as [-nan]. *)
Variable nan_sign : bool.

(** Insertion of a double under [std::fixed] and [std::setprecision(p)],
    p > 0. *)
Definition fixed (p : nat) (x : float) : string :=
  match Prim2SF x with
  | S754_nan => (if nan_sign then "-" else "") ++ "nan"
  | S754_infinity s => (if s then "-" else "") ++ "inf"
  | S754_zero s => (if s then "-" else "") ++ "0." ++ replicate p "0"
  | S754_finite s m e =>
      let n := scaled p m e in
      (if s then "-" else "")
        ++ decimal (n / 10 ^ N.of_nat p) ++ "." ++ fraction_digits p n
  end.

End Printing.

(** [Benchmark::printSeparator]. *)
Definition printSeparator : string :=
  "+" ++ replicate 17 "-"
      ++ "+" ++ replicate 14 "-"
      ++ "+" ++ replicate 14 "-"
      ++ "+" ++ replicate 14 "-"
      ++ "+" ++ replicate 14 "-"
      ++ "+" ++ replicate 14 "-"
      ++ "+" ++ replicate 14 "-"
      ++ "+" ++ newline.

(** The row of column titles printed between the two separators. *)
Definition header_row : string :=
  "| " ++ setw_left 15 "Algorithm"
       ++ " | " ++ setw_left 12 "Security"
       ++ " | " ++ setw_left 12 "KeyGen (ms)"
       ++ " | " ++ setw_left 12 "Sign (ms)"
       ++ " | " ++ setw_left 12 "Verify (ms)"
       ++ " | " ++ setw_left 12 "PubKey (B)"
       ++ " | " ++ setw_left 12 "Sig (B)"
       ++ " |" ++ newline.

(** [Benchmark::printTableHeader]. *)
Definition printTableHeader : string :=
  printSeparator ++ header_row ++ printSeparator.

(** [Benchmark::printComparisonRow]. *)
Definition printComparisonRow (nan_sign : bool) (algorithm keySize : string)
           (keyGen sign verify : Result) (pubKeyBytes sigBytes : N) : string :=
  "| " ++ setw_left 15 algorithm
       ++ " | " ++ setw_left 12 keySize
       ++ " | " ++ setw_left 12 (fixed nan_sign 3 (averageTime keyGen))
       ++ " | " ++ setw_left 12 (fixed nan_sign 3 (averageTime sign))
       ++ " | " ++ setw_left 12 (fixed nan_sign 3 (averageTime verify))
       ++ " | " ++ setw_left 12 (decimal pubKeyBytes)
       ++ " | " ++ setw_left 12 (decimal sigBytes)
       ++ " |" ++ newline.

(** [Benchmark::printResult]. *)
Definition printResult (nan_sign : bool) (name : string) (result : Result)
  : string :=
  name ++ ":" ++ newline
       ++ "  Average: " ++ fixed nan_sign 3 (averageTime result) ++ " ms"
       ++ newline
       ++ "  Min:     " ++ fixed nan_sign 3 (minTime result) ++ " ms"
       ++ newline
       ++ "  Max:     " ++ fixed nan_sign 3 (maxTime result) ++ " ms"
       ++ newline
       ++ "  StdDev:  " ++ fixed nan_sign 3 (stdDev result) ++ " ms"
       ++ newline
       ++ "  Iterations: " ++ decimal (N.of_nat (iterations result))
       ++ newline ++ newline.

(** The seven fields of a row as printed, with their column widths. *)
Definition row_fields (nan_sign : bool) (algorithm keySize : string)
           (keyGen sign verify : Result) (pubKeyBytes sigBytes : N)
  : list (nat * string) :=
  [ (15, algorithm); (12, keySize);
    (12, fixed nan_sign 3 (averageTime keyGen));
    (12, fixed nan_sign 3 (averageTime sign));
    (12, fixed nan_sign 3 (averageTime verify));
    (12, decimal pubKeyBytes); (12, decimal sigBytes) ]%nat.

(** A result whose average is the double nearest to [n / 1000]. *)
Definition thousandths (n : Z) : Result :=
  let x := (of_uint63 (Uint63.of_Z n) / 1000)%float in mkResult x x x 0 1.

End Report.

(* ================================================================== *)
(** * main.cpp: the basic usage demonstration *)
(* ================================================================== *)

Module Demonstration.

Import DilithiumWrapper Report.
Import Ascii String.
Local Open Scope string_scope.

(** The two output streams. *)
Inductive stream : Type := cout | cerr.

(** The double quote character. *)
Definition dquote : string := String (ascii_of_nat 34) "".

(** [message[0] ^= 0x01] on a byte. *)
Definition flip_low_bit (b : Byte.byte) : Byte.byte :=
  match Byte.of_N (N.lxor (Byte.to_N b) 1) with
  | Some b' => b'
  | None => b
  end.

(** The tampering of step 5, on a message with a first byte. *)
Definition tamper (message : bytes) : bytes :=
  match message with
  | [] => []
  | b :: rest => flip_low_bit b :: rest
  end.

Definition messageStr : string := "Hello, Post-Quantum World!".

(** [std::vector<uint8_t> message(messageStr.begin(), messageStr.end())]. *)
Definition message : bytes := list_byte_of_string messageStr.

Definition banner : list (stream * string) :=
  [ (cout, newline);
    (cout, "========================================" ++ newline);
    (cout, "     DILITHIUM BASIC USAGE DEMO" ++ newline);
    (cout, "========================================" ++ newline ++ newline) ].

Definition step1 : stream * string :=
  (cout, "1. Generating Dilithium key pair..." ++ newline).

Definition steps_2_3 : list (stream * string) :=
  [ (cout, "   ✓ Key generation successful" ++ newline ++ newline);
    (cout, "2. Message to sign: " ++ dquote ++ messageStr ++ dquote
             ++ newline ++ newline);
    (cout, "3. Signing message..." ++ newline) ].

Definition steps_4_5 (signature_size : nat) (valid validTampered : bool)
  : list (stream * string) :=
  [ (cout, "   ✓ Signature created ("
             ++ decimal (N.of_nat signature_size) ++ " bytes)"
             ++ newline ++ newline);
    (cout, "4. Verifying signature..." ++ newline);
    (cout, "   " ++ (if valid then "✓" else "✗") ++ " Signature is "
                 ++ (if valid then "VALID" else "INVALID")
                 ++ newline ++ newline);
    (cout, "5. Testing with tampered message..." ++ newline);
    (cout, "   " ++ (if validTampered then "✗" else "✓")
                 ++ " Tampered signature is "
                 ++ (if validTampered then "VALID (ERROR!)"
                     else "INVALID (CORRECT!)")
                 ++ newline ++ newline) ].

Definition keygen_failure : stream * string :=
  (cerr, "   Failed to generate keys!" ++ newline).

Definition sign_failure : stream * string :=
  (cerr, "   Failed to sign message!" ++ newline).

(** [demonstrateBasicUsage]: what is written, statement by statement, and
    the library state afterwards. *)
Definition demonstrateBasicUsage (Env : Type) (P : Primitives Env) (e : Env)
  : list (stream * string) * Env :=
  let dilithium := create in
  let '(e1, (generated, dilithium1)) := generateKeys P dilithium e in
  if negb generated
  then ((banner ++ [step1; keygen_failure])%list, e1)
  else
    let '(e2, signature) := sign P dilithium1 e1 message in
    match signature with
    | [] =>
        ((banner ++ [step1] ++ steps_2_3 ++ [sign_failure])%list, e2)
    | _ :: _ =>
        let valid := verify P dilithium1 message signature in
        let validTampered := verify P dilithium1 (tamper message) signature in
        ((banner ++ [step1] ++ steps_2_3
                 ++ steps_4_5 (List.length signature) valid validTampered)%list,
         e2)
    end.

(** The text written to one stream. *)
Definition written (s : stream) (out : list (stream * string)) : string :=
  concat "" (map snd (filter (fun l => match fst l, s with
                                       | cout, cout | cerr, cerr => true
                                       | _, _ => false
                                       end) out)).

End Demonstration.

(* ================================================================== *)
(** * main.cpp: the Dilithium3 part of the benchmark suite *)
(* ================================================================== *)

Module Suite.

Import Benchmark.

Definition ITERATIONS : nat := 100.
Definition KEYGEN_ITERATIONS : nat := 10.

Section LatticePhase.

(** Everything outside the program: the state the library draws on and the
    clock. *)
Variable Env : Type.
Variable now : Env -> Z * Env.
Variables us_num us_den : Z.
Variable P : DilithiumWrapper.Primitives Env.

(** The test message. *)
Variable message : DilithiumWrapper.bytes.

(** What the three lambdas capture by reference, with the world outside. *)
Record Captured : Type := mkCaptured {
  outside      : Env;
  dilithium    : DilithiumWrapper.t;
  dilithiumSig : DilithiumWrapper.bytes
}.

Definition clock (w : Captured) : Z * Captured :=
  let (ticks, e) := now (outside w) in
  (ticks, mkCaptured e (dilithium w) (dilithiumSig w)).

(** [dilithium.generateKeys();], the result discarded. *)
Definition keygen_op (w : Captured) : Captured :=
  let '(e, (_, d)) := DilithiumWrapper.generateKeys P (dilithium w) (outside w) in
  mkCaptured e d (dilithiumSig w).

(** [dilithiumSig = dilithium.sign(message);]. *)
Definition sign_op (w : Captured) : Captured :=
  let '(e, signature) :=
    DilithiumWrapper.sign P (dilithium w) (outside w) message in
  mkCaptured e (dilithium w) signature.

(** [dilithium.verify(message, dilithiumSig);], the result discarded. *)
Definition verify_op (w : Captured) : Captured :=
  let _ := DilithiumWrapper.verify P (dilithium w) message (dilithiumSig w) in
  w.

(** The Dilithium3 part of [runComprehensiveBenchmark] (lines 32-54): the
    three results and the captured variables afterwards. *)
Definition dilithium_phase (e : Env)
  : option (Result * Result * Result * Captured) :=
  let w0 := mkCaptured e DilithiumWrapper.create [] in
  match run clock us_num us_den keygen_op KEYGEN_ITERATIONS w0 with
  | None => None
  | Some (dilithiumKeyGen, w1) =>
      let w2 := keygen_op w1 in
      match run clock us_num us_den sign_op ITERATIONS w2 with
      | None => None
      | Some (dilithiumSign, w3) =>
          let w4 := sign_op w3 in
          match run clock us_num us_den verify_op ITERATIONS w4 with
          | None => None
          | Some (dilithiumVerify, w5) =>
              Some (dilithiumKeyGen, dilithiumSign, dilithiumVerify, w5)
          end
      end
  end.

End LatticePhase.

(** No keys and no signature yet. *)
Definition keyless (Env : Type) (w : Captured Env) : Prop :=
  DilithiumWrapper.hasKeys (dilithium w) = false /\ dilithiumSig w = [].

(** A keypair routine never returns 0. *)
Definition keypair_always_fails (Env : Type)
           (P : DilithiumWrapper.Primitives Env) : Prop :=
  forall e pk sk,
    snd (snd (DilithiumWrapper.ref_keypair P e pk sk)) <> Some 0%Z.

(** A clock that stands still. *)
Definition frozen (e : unit) : Z * unit := (0%Z, e).

End Suite.

Local Open Scope Z_scope.
Unset Implicit Arguments.

(* ================================================================== *)
(** * Shapes of IEEE-754 numbers *)
(* ================================================================== *)

(** The sign of a number, NaN having none. *)
Definition sf_signed (s : bool) (x : spec_float) : Prop :=
  match x with
  | S754_zero s' | S754_infinity s' | S754_finite s' _ _ => s' = s
  | S754_nan => False
  end.

Definition sf_not_nan (x : spec_float) : Prop :=
  match x with S754_nan => False | _ => True end.

(** Zero or finite. *)
Definition sf_finite (x : spec_float) : Prop :=
  match x with S754_zero _ | S754_finite _ _ _ => True | _ => False end.

(** Zero, or finite of magnitude below 2^k. *)
Definition sf_below (k : Z) (x : spec_float) : Prop :=
  match x with
  | S754_zero _ => True
  | S754_finite _ m e => Zpos (digits2_pos m) + e <= k
  | _ => False
  end.

Definition sf_nonzero (x : spec_float) : Prop :=
  match x with S754_zero _ | S754_nan => False | _ => True end.

(** The same properties of doubles, through their [SpecFloat] images. *)
Definition f_finite (x : float) : Prop := sf_finite (Prim2SF x).
Definition f_not_nan (x : float) : Prop := sf_not_nan (Prim2SF x).
Definition f_nonneg (x : float) : Prop := sf_signed false (Prim2SF x).

(* ================================================================== *)
(** * IEEE-754 binary64 arithmetic: facts about [SpecFloat] *)
(* ================================================================== *)

Section SpecFloatFacts.

Local Abbreviation fe := (fexp prec emax).

Lemma fexp_eq (x : Z) : fe x = Z.max (x - 53) (-1074).
Proof. reflexivity. Qed.

Lemma digits2_pos_size (p : positive) : digits2_pos p = Pos.size p.
Proof. induction p; simpl; congruence. Qed.

Lemma Zdigits2_log2 (m : Z) : 0 < m -> Zdigits2 m = Z.log2 m + 1.
Proof.
  destruct m as [|p|p]; try lia. intros _. simpl. rewrite digits2_pos_size.
  destruct p; simpl; lia.
Qed.

Lemma Zdigits2_nonneg (m : Z) : 0 <= Zdigits2 m.
Proof. destruct m; simpl; lia. Qed.

Lemma Zdigits2_pos (m : Z) : 0 < m -> 1 <= Zdigits2 m.
Proof. destruct m; simpl; lia. Qed.

Lemma Zdigits2_mono (a b : Z) : 0 <= a <= b -> Zdigits2 a <= Zdigits2 b.
Proof.
  intros [Ha Hab]. destruct (Z.eq_dec a 0) as [->|Hn].
  - apply Zdigits2_nonneg.
  - rewrite !Zdigits2_log2 by lia.
    pose proof (Z.log2_le_mono a b Hab). lia.
Qed.

Lemma Zdigits2_succ (m : Z) : 0 <= m -> Zdigits2 (m + 1) <= Zdigits2 m + 1.
Proof.
  intros Hm. destruct (Z.eq_dec m 0) as [->|Hn]; [simpl; lia|].
  rewrite !Zdigits2_log2 by lia.
  pose proof (Z.log2_succ_le m). unfold Z.succ in *. lia.
Qed.

Lemma Zdigits2_div_pow2 (m n : Z) :
  0 <= m -> 0 <= n -> Zdigits2 (m / 2 ^ n) <= Z.max 0 (Zdigits2 m - n).
Proof.
  intros Hm Hn.
  assert (Hq : 0 <= m / 2 ^ n) by (apply Z.div_pos; [lia|apply Z.pow_pos_nonneg; lia]).
  destruct (Z.eq_dec (m / 2 ^ n) 0) as [->|Hq0]; [simpl; lia|].
  assert (Hmpos : 0 < m).
  { destruct (Z.eq_dec m 0) as [->|]; [|lia]. rewrite Z.div_0_l in Hq0; [lia|].
    apply Z.pow_nonzero; lia. }
  rewrite (Zdigits2_log2 (m / 2 ^ n)) by lia.
  rewrite (Zdigits2_log2 m Hmpos).
  rewrite <- Z.shiftr_div_pow2 by lia.
  rewrite Z.log2_shiftr by lia.
  assert (2 ^ n <= m).
  { destruct (Z.le_gt_cases (2 ^ n) m) as [|Hlt]; [assumption|].
    rewrite Z.div_small in Hq0; lia. }
  apply Z.log2_le_pow2 in H; lia.
Qed.

Lemma Zdigits2_div_pow2_exact (m n : Z) :
  0 < m -> 0 <= n <= Zdigits2 m - 1 ->
  0 < m / 2 ^ n /\ Zdigits2 (m / 2 ^ n) = Zdigits2 m - n.
Proof.
  intros Hm [Hn Hle]. rewrite (Zdigits2_log2 m Hm) in *.
  assert (Hp : 2 ^ n <= m) by (apply Z.log2_le_pow2; lia).
  assert (Hq : 0 < m / 2 ^ n).
  { apply Z.div_str_pos. split; [apply Z.pow_pos_nonneg; lia|assumption]. }
  split; [assumption|].
  rewrite (Zdigits2_log2 _ Hq).
  rewrite <- Z.shiftr_div_pow2 by lia.
  rewrite Z.log2_shiftr by lia. lia.
Qed.

Lemma Zdigits2_shiftl (m s : Z) :
  0 < m -> 0 <= s -> Zdigits2 (Z.shiftl m s) = Zdigits2 m + s.
Proof.
  intros Hm Hs.
  assert (0 < Z.shiftl m s).
  { rewrite Z.shiftl_mul_pow2 by lia. apply Z.mul_pos_pos; [lia|].
    apply Z.pow_pos_nonneg; lia. }
  rewrite !Zdigits2_log2 by lia. rewrite Z.log2_shiftl by lia. lia.
Qed.

(** Right shifts of the rounding record. *)

Lemma shr_1_m (mrs : shr_record) :
  0 <= shr_m mrs -> shr_m (shr_1 mrs) = shr_m mrs / 2.
Proof.
  destruct mrs as [m r s]. simpl. destruct m as [|p|p]; try lia; intros _.
  - reflexivity.
  - destruct p; simpl.
    + rewrite (Pos2Z.inj_xI p). apply Z.div_unique with 1; lia.
    + rewrite (Pos2Z.inj_xO p). apply Z.div_unique with 0; lia.
    + reflexivity.
Qed.

Lemma iter_shr_1_m (p : positive) (mrs : shr_record) :
  0 <= shr_m mrs ->
  shr_m (iter_pos shr_1 p mrs) = shr_m mrs / 2 ^ Zpos p.
Proof.
  revert mrs. induction p as [p IH|p IH|]; intros mrs Hm; cbn [iter_pos].
  - assert (H1 : 0 <= shr_m (shr_1 mrs)).
    { rewrite shr_1_m by assumption. apply Z.div_pos; lia. }
    assert (H2 : 0 <= shr_m (iter_pos shr_1 p (shr_1 mrs))).
    { rewrite IH by assumption. apply Z.div_pos; [lia|apply Z.pow_pos_nonneg; lia]. }
    rewrite IH, IH, shr_1_m by assumption.
    rewrite !Z.div_div by (try apply Z.pow_pos_nonneg; lia).
    f_equal. rewrite (Pos2Z.inj_xI p).
    replace (2 * Zpos p + 1) with (1 + Zpos p + Zpos p) by lia.
    rewrite !Z.pow_add_r by lia. lia.
  - assert (H2 : 0 <= shr_m (iter_pos shr_1 p mrs)).
    { rewrite IH by assumption. apply Z.div_pos; [lia|apply Z.pow_pos_nonneg; lia]. }
    rewrite IH, IH by assumption.
    rewrite !Z.div_div by (try apply Z.pow_pos_nonneg; lia).
    f_equal. rewrite (Pos2Z.inj_xO p).
    replace (2 * Zpos p) with (Zpos p + Zpos p) by lia.
    rewrite !Z.pow_add_r by lia. lia.
  - rewrite shr_1_m by assumption. reflexivity.
Qed.

Lemma shr_m_record_of_loc (m : Z) (l : location) :
  shr_m (shr_record_of_loc m l) = m.
Proof. destruct l as [|[| |]]; reflexivity. Qed.

Lemma shr_fexp_spec (m e : Z) (l : location) :
  0 <= m ->
  snd (shr_fexp prec emax m e l) = Z.max e (fe (Zdigits2 m + e))
  /\ shr_m (fst (shr_fexp prec emax m e l))
     = m / 2 ^ (Z.max e (fe (Zdigits2 m + e)) - e).
Proof.
  intros Hm. unfold shr_fexp, shr.
  destruct (fe (Zdigits2 m + e) - e) as [|p|p] eqn:Hn; simpl.
  - replace (Z.max e (fe (Zdigits2 m + e)) - e) with 0 by lia.
    rewrite shr_m_record_of_loc, Z.div_1_r. split; lia.
  - rewrite iter_shr_1_m by (rewrite shr_m_record_of_loc; assumption).
    rewrite shr_m_record_of_loc.
    replace (Z.max e (fe (Zdigits2 m + e)) - e) with (Zpos p) by lia.
    split; lia.
  - replace (Z.max e (fe (Zdigits2 m + e)) - e) with 0 by lia.
    rewrite shr_m_record_of_loc, Z.div_1_r. split; lia.
Qed.

Lemma round_nearest_even_bounds (m : Z) (l : location) :
  m <= round_nearest_even m l <= m + 1.
Proof.
  destruct l as [|[| |]]; simpl; try lia. destruct (Z.even m); lia.
Qed.

(** ** Shape of a rounded result *)

Lemma round_aux_shape (sx : bool) (mx ex : Z) (lx : location) :
  0 <= mx ->
  exists m1 m2 e2 : Z,
    mx / 2 ^ (Z.max ex (fe (Zdigits2 mx + ex)) - ex) <= m1
      <= mx / 2 ^ (Z.max ex (fe (Zdigits2 mx + ex)) - ex) + 1
    /\ e2 = Z.max (Z.max ex (fe (Zdigits2 mx + ex)))
                  (fe (Zdigits2 m1 + Z.max ex (fe (Zdigits2 mx + ex))))
    /\ m2 = m1 / 2 ^ (e2 - Z.max ex (fe (Zdigits2 mx + ex)))
    /\ binary_round_aux prec emax sx mx ex lx
       = match m2 with
         | Z0 => S754_zero sx
         | Zpos m => if e2 <=? emax - prec then S754_finite sx m e2
                     else S754_infinity sx
         | Zneg _ => S754_nan
         end.
Proof.
  intros Hmx. unfold binary_round_aux.
  destruct (shr_fexp_spec mx ex lx Hmx) as [He1 Hm1].
  destruct (shr_fexp prec emax mx ex lx) as [mrs1 e1]. simpl in He1, Hm1.
  set (m1 := round_nearest_even (shr_m mrs1) (loc_of_shr_record mrs1)).
  pose proof (round_nearest_even_bounds (shr_m mrs1) (loc_of_shr_record mrs1))
    as Hr. fold m1 in Hr.
  assert (H0 : 0 <= shr_m mrs1).
  { rewrite Hm1. apply Z.div_pos; [lia|apply Z.pow_pos_nonneg; lia]. }
  assert (Hm1' : 0 <= m1) by lia.
  destruct (shr_fexp_spec m1 e1 loc_Exact Hm1') as [He2 Hm2].
  destruct (shr_fexp prec emax m1 e1 loc_Exact) as [mrs2 e2].
  simpl in He2, Hm2.
  exists m1, (shr_m mrs2), e2. subst e1.
  rewrite <- Hm1. rewrite <- He2 in Hm2.
  repeat split; try lia; try assumption; reflexivity.
Qed.

Lemma round_aux_signed (sx : bool) (mx ex : Z) (lx : location) :
  0 <= mx -> sf_signed sx (binary_round_aux prec emax sx mx ex lx).
Proof.
  intros Hmx.
  destruct (round_aux_shape sx mx ex lx Hmx) as (m1 & m2 & e2 & Hm1 & He2 & Hm2 & ->).
  assert (0 <= m1).
  { assert (0 <= mx / 2 ^ (Z.max ex (fe (Zdigits2 mx + ex)) - ex))
      by (apply Z.div_pos; [lia|apply Z.pow_pos_nonneg; lia]). lia. }
  assert (0 <= m2)
    by (subst m2; apply Z.div_pos; [lia|apply Z.pow_pos_nonneg; lia]).
  destruct m2; try lia; simpl; [reflexivity|].
  destruct (e2 <=? _); reflexivity.
Qed.

Lemma round_aux_below (sx : bool) (mx ex : Z) (lx : location) (k : Z) :
  0 <= mx -> Zdigits2 mx + ex <= k -> ex <= k -> ex <= 971 ->
  -1074 <= k <= 1023 ->
  sf_below (k + 1) (binary_round_aux prec emax sx mx ex lx).
Proof.
  intros Hmx Hd Hex Hex' Hk.
  destruct (round_aux_shape sx mx ex lx Hmx) as (m1 & m2 & e2 & Hm1 & He2 & Hm2 & ->).
  rewrite fexp_eq in *.
  set (e1 := Z.max ex (Z.max (Zdigits2 mx + ex - 53) (-1074))) in *.
  assert (He1 : 0 <= e1 - ex) by lia.
  pose proof (Zdigits2_div_pow2 mx (e1 - ex) Hmx He1) as Hq.
  assert (Hq0 : 0 <= mx / 2 ^ (e1 - ex))
    by (apply Z.div_pos; [lia|apply Z.pow_pos_nonneg; lia]).
  assert (Hm1d : Zdigits2 m1 <= Zdigits2 (mx / 2 ^ (e1 - ex)) + 1).
  { transitivity (Zdigits2 (mx / 2 ^ (e1 - ex) + 1)).
    - apply Zdigits2_mono; lia.
    - apply Zdigits2_succ; lia. }
  rewrite fexp_eq in He2.
  assert (He21 : 0 <= e2 - e1) by lia.
  assert (Hm1' : 0 <= m1) by lia.
  pose proof (Zdigits2_div_pow2 m1 (e2 - e1) Hm1' He21) as Hq2.
  rewrite <- Hm2 in Hq2.
  assert (0 <= m2)
    by (subst m2; apply Z.div_pos; [lia|apply Z.pow_pos_nonneg; lia]).
  destruct m2 as [|p|p]; try lia; [exact I|].
  replace (e2 <=? emax - prec) with true
    by (symmetry; apply Z.leb_le; change (emax - prec) with 971; lia).
  cbn [sf_below].
  change (Zpos (digits2_pos p)) with (Zdigits2 (Zpos p)).
  pose proof (Zdigits2_pos (Zpos p) ltac:(lia)). lia.
Qed.

Lemma round_aux_nonzero (sx : bool) (mx ex : Z) (lx : location) :
  0 < mx -> -1073 <= Zdigits2 mx + ex ->
  sf_nonzero (binary_round_aux prec emax sx mx ex lx).
Proof.
  intros Hmx Hd.
  destruct (round_aux_shape sx mx ex lx (Z.lt_le_incl _ _ Hmx))
    as (m1 & m2 & e2 & Hm1 & He2 & Hm2 & ->).
  rewrite fexp_eq in *.
  set (e1 := Z.max ex (Z.max (Zdigits2 mx + ex - 53) (-1074))) in *.
  pose proof (Zdigits2_pos mx Hmx) as Hdp.
  assert (He1 : 0 <= e1 - ex <= Zdigits2 mx - 1) by lia.
  destruct (Zdigits2_div_pow2_exact _ _ Hmx He1) as [Hq0 Hqd].
  assert (Hm1d : Zdigits2 (mx / 2 ^ (e1 - ex)) <= Zdigits2 m1)
    by (apply Zdigits2_mono; lia).
  assert (Hm1' : 0 < m1) by lia.
  rewrite fexp_eq in He2.
  assert (He21 : 0 <= e2 - e1 <= Zdigits2 m1 - 1) by lia.
  destruct (Zdigits2_div_pow2_exact _ _ Hm1' He21) as [Hq2 _].
  rewrite <- Hm2 in Hq2.
  destruct m2 as [|p|p]; try lia; simpl.
  destruct (e2 <=? _); exact I.
Qed.

Lemma sf_signed_not_nan (s : bool) (x : spec_float) :
  sf_signed s x -> sf_not_nan x.
Proof. destruct x; simpl; tauto. Qed.

Lemma sf_finite_not_nan (x : spec_float) : sf_finite x -> sf_not_nan x.
Proof. destruct x; simpl; tauto. Qed.

Lemma sf_below_finite (k : Z) (x : spec_float) : sf_below k x -> sf_finite x.
Proof. destruct x; simpl; tauto. Qed.

(** ** Rounding a positive mantissa *)

Lemma pos_iter_xO (m d : positive) :
  Zpos (Pos.iter xO m d) = Zpos m * 2 ^ Zpos d.
Proof.
  induction d as [|d IH] using Pos.peano_ind.
  - simpl. lia.
  - rewrite Pos.iter_succ, Pos2Z.inj_xO, IH, Pos2Z.inj_succ, Z.pow_succ_r by lia.
    lia.
Qed.

Lemma shl_align_spec (mx : positive) (ex ex' : Z) :
  snd (shl_align mx ex ex') = Z.min ex ex'
  /\ Zdigits2 (Zpos (fst (shl_align mx ex ex'))) + snd (shl_align mx ex ex')
     = Zdigits2 (Zpos mx) + ex.
Proof.
  unfold shl_align. destruct (ex' - ex) as [|d|d] eqn:Hd; cbn [fst snd].
  - split; lia.
  - split; lia.
  - split; [lia|]. rewrite pos_iter_xO.
    rewrite <- Z.shiftl_mul_pow2 by lia.
    rewrite Zdigits2_shiftl by lia. lia.
Qed.

Lemma binary_round_signed (sx : bool) (mx : positive) (ex : Z) :
  sf_signed sx (binary_round prec emax sx mx ex).
Proof.
  unfold binary_round.
  destruct (shl_align mx ex (fe (Zpos (digits2_pos mx) + ex))) as [mz ez].
  apply round_aux_signed. lia.
Qed.

Lemma binary_round_below (sx : bool) (mx : positive) (ex k : Z) :
  Zdigits2 (Zpos mx) + ex <= k -> ex <= 971 -> -1074 <= k <= 1023 ->
  sf_below (k + 1) (binary_round prec emax sx mx ex).
Proof.
  intros Hd Hex Hk. unfold binary_round.
  destruct (shl_align_spec mx ex (fe (Zpos (digits2_pos mx) + ex))) as [Hs Hdz].
  destruct (shl_align mx ex (fe (Zpos (digits2_pos mx) + ex))) as [mz ez].
  cbn [fst snd] in Hs, Hdz.
  pose proof (Zdigits2_pos (Zpos mz) ltac:(lia)).
  apply round_aux_below; lia.
Qed.

Lemma binary_round_nonzero (sx : bool) (mx : positive) (ex : Z) :
  -1073 <= Zdigits2 (Zpos mx) + ex ->
  sf_nonzero (binary_round prec emax sx mx ex).
Proof.
  intros Hd. unfold binary_round.
  destruct (shl_align_spec mx ex (fe (Zpos (digits2_pos mx) + ex))) as [Hs Hdz].
  destruct (shl_align mx ex (fe (Zpos (digits2_pos mx) + ex))) as [mz ez].
  cbn [fst snd] in Hs, Hdz.
  apply round_aux_nonzero; lia.
Qed.

Lemma binary_normalize_not_nan (m e : Z) (szero : bool) :
  sf_not_nan (binary_normalize prec emax m e szero).
Proof.
  destruct m; simpl; [exact I| |];
    eapply sf_signed_not_nan; apply binary_round_signed.
Qed.

Lemma binary_normalize_nonneg (m e : Z) :
  0 <= m -> sf_signed false (binary_normalize prec emax m e false).
Proof.
  destruct m; try lia; intros _; simpl; [reflexivity|].
  apply binary_round_signed.
Qed.

(** ** The arithmetic operations *)

Lemma SFadd_not_nan (x y : spec_float) :
  sf_not_nan x -> sf_finite y -> sf_not_nan (SFadd prec emax x y).
Proof.
  destruct x as [sx|sx| |sx mx ex], y as [sy|sy| |sy my ey]; simpl;
    try tauto; intros _ _.
  - destruct sx, sy; exact I.
  - apply binary_normalize_not_nan.
Qed.

Lemma SFsub_not_nan (x y : spec_float) :
  sf_finite x -> sf_not_nan y -> sf_not_nan (SFsub prec emax x y).
Proof.
  destruct x as [sx|sx| |sx mx ex], y as [sy|sy| |sy my ey]; simpl;
    try tauto; intros _ _.
  - destruct sx, sy; exact I.
  - apply binary_normalize_not_nan.
Qed.

Lemma SFmul_square_nonneg (x : spec_float) :
  sf_not_nan x -> sf_signed false (SFmul prec emax x x).
Proof.
  destruct x as [sx|sx| |sx mx ex]; simpl; try tauto; intros _;
    try (destruct sx; reflexivity).
  replace (xorb sx sx) with false by (destruct sx; reflexivity).
  apply round_aux_signed. lia.
Qed.

Lemma SFadd_nonneg (x y : spec_float) :
  sf_signed false x -> sf_signed false y ->
  sf_signed false (SFadd prec emax x y).
Proof.
  destruct x as [sx|sx| |sx mx ex], y as [sy|sy| |sy my ey]; simpl;
    try tauto; intros -> ->; try reflexivity.
  apply binary_normalize_nonneg. simpl. lia.
Qed.

Lemma SFdiv_core_quotient (m1 : positive) (e1 : Z) (m2 : positive) (e2 : Z) :
  let '(q, e, _) := SFdiv_core_binary prec emax (Zpos m1) e1 (Zpos m2) e2 in
  0 <= q /\ e <= e1 - e2
  /\ Zdigits2 q + e <= Zdigits2 (Zpos m1) + e1 - e2.
Proof.
  unfold SFdiv_core_binary.
  set (e := Z.min (fe (Zdigits2 (Zpos m1) + e1 - (Zdigits2 (Zpos m2) + e2)))
                  (e1 - e2)).
  set (m := match e1 - e2 - e with
            | Zpos _ => Z.shiftl (Zpos m1) (e1 - e2 - e)
            | Z0 => Zpos m1
            | Zneg _ => 0
            end).
  assert (Hs : 0 <= e1 - e2 - e) by (unfold e; lia).
  assert (Hm : m = Z.shiftl (Zpos m1) (e1 - e2 - e)).
  { unfold m. destruct (e1 - e2 - e) eqn:H; try lia; reflexivity. }
  assert (Hd : Zdigits2 m = Zdigits2 (Zpos m1) + (e1 - e2 - e))
    by (rewrite Hm; apply Zdigits2_shiftl; lia).
  assert (Hmpos : 0 < m).
  { rewrite Hm, Z.shiftl_mul_pow2 by lia.
    apply Z.mul_pos_pos; [lia|apply Z.pow_pos_nonneg; lia]. }
  pose proof (Z_div_mod m (Zpos m2) ltac:(lia)) as Hdm.
  destruct (Z.div_eucl m (Zpos m2)) as [q r]. destruct Hdm as [Heq Hr].
  assert (Hq : 0 <= q) by nia.
  assert (Hqm : q <= m) by nia.
  pose proof (Zdigits2_mono q m ltac:(lia)).
  repeat split; lia.
Qed.

Lemma SFdiv_not_nan (x y : spec_float) :
  sf_not_nan x -> sf_finite y -> sf_nonzero y ->
  sf_not_nan (SFdiv prec emax x y).
Proof.
  destruct x as [sx|sx| |sx mx ex], y as [sy|sy| |sy my ey]; simpl;
    try tauto; intros _ _ _.
  pose proof (SFdiv_core_quotient mx ex my ey) as H.
  destruct (SFdiv_core_binary prec emax (Zpos mx) ex (Zpos my) ey)
    as [[q e] l]. destruct H as (Hq & _).
  eapply sf_signed_not_nan. apply round_aux_signed. exact Hq.
Qed.

Lemma SFdiv_nonneg (x y : spec_float) :
  sf_signed false x -> sf_signed false y -> sf_finite y -> sf_nonzero y ->
  sf_signed false (SFdiv prec emax x y).
Proof.
  destruct x as [sx|sx| |sx mx ex], y as [sy|sy| |sy my ey]; simpl;
    try tauto; intros -> -> _ _; try reflexivity.
  pose proof (SFdiv_core_quotient mx ex my ey) as H.
  destruct (SFdiv_core_binary prec emax (Zpos mx) ex (Zpos my) ey)
    as [[q e] l]. destruct H as (Hq & _).
  apply round_aux_signed. exact Hq.
Qed.

Lemma SFdiv_below (x y : spec_float) (k : Z) (sy : bool) (my : positive) (ey : Z) :
  sf_below k x -> y = S754_finite sy my ey ->
  k - ey <= 1023 -> -1074 <= k - ey ->
  (forall sx mx ex, x = S754_finite sx mx ex -> ex - ey <= 971) ->
  sf_finite (SFdiv prec emax x y).
Proof.
  intros Hx -> Hk Hk' He.
  destruct x as [sx|sx| |sx mx ex]; cbn [sf_below] in Hx; try tauto;
    try exact I.
  specialize (He sx mx ex eq_refl). cbn [SFdiv].
  pose proof (SFdiv_core_quotient mx ex my ey) as H.
  destruct (SFdiv_core_binary prec emax (Zpos mx) ex (Zpos my) ey)
    as [[q e] l]. destruct H as (Hq & He' & Hd).
  change (Zdigits2 (Zpos mx)) with (Zpos (digits2_pos mx)) in Hd.
  apply sf_below_finite with (k - ey + 1).
  pose proof (Zdigits2_nonneg q).
  apply round_aux_below; lia.
Qed.

Lemma SFsqrt_nonneg (x : spec_float) :
  sf_signed false x -> sf_signed false (SFsqrt prec emax x).
Proof.
  destruct x as [sx|sx| |sx mx ex]; simpl; try tauto; intros ->;
    try reflexivity.
  unfold SFsqrt_core_binary.
  set (m := match _ with Zpos _ => _ | Z0 => _ | Zneg _ => _ end).
  pose proof (Z.sqrtrem_spec m) as H.
  assert (Hm : 0 <= m).
  { unfold m. destruct (ex - 2 * _); try lia.
    rewrite Z.shiftl_mul_pow2 by lia.
    apply Z.mul_nonneg_nonneg; [lia|apply Z.pow_nonneg; lia]. }
  specialize (H Hm).
  destruct (Z.sqrtrem m) as [q r]. destruct H as [_ Hr].
  apply round_aux_signed. lia.
Qed.

(** ** Order *)

Lemma SFleb_zero_nonneg (x : spec_float) :
  sf_signed false x -> SFleb (S754_zero false) x = true.
Proof.
  destruct x as [sx|sx| |sx mx ex]; simpl; try tauto; intros ->; reflexivity.
Qed.

Lemma SFcompare_antisym (x y : spec_float) :
  SFcompare y x = option_map CompOpp (SFcompare x y).
Proof.
  destruct x as [sx|sx| |sx mx ex], y as [sy|sy| |sy my ey]; simpl;
    try reflexivity;
    try (destruct sx; reflexivity); try (destruct sy; reflexivity);
    try (destruct sx, sy; reflexivity).
  destruct sx, sy; simpl; try reflexivity;
    rewrite (Z.compare_antisym ex ey);
    destruct (ex ?= ey); simpl; try reflexivity;
    rewrite (Pos.compare_cont_antisym mx my Eq); simpl;
    try rewrite CompOpp_involutive; reflexivity.
Qed.

Lemma SFleb_of_not_ltb (x y : spec_float) :
  sf_not_nan x -> sf_not_nan y -> SFltb x y = false -> SFleb y x = true.
Proof.
  intros Hx Hy. unfold SFltb, SFleb. rewrite (SFcompare_antisym x y).
  destruct (SFcompare x y) as [[| |]|] eqn:Hc; simpl; try reflexivity;
    try discriminate.
  destruct x, y; simpl in *; try tauto; discriminate.
Qed.

Lemma SFleb_refl (x : spec_float) : sf_not_nan x -> SFleb x x = true.
Proof.
  intros Hx. apply SFleb_of_not_ltb; try assumption.
  unfold SFltb. pose proof (SFcompare_antisym x x) as H.
  destruct (SFcompare x x) as [[| |]|]; simpl in *; try reflexivity;
    discriminate.
Qed.

End SpecFloatFacts.

Local Close Scope Z_scope.
Set Implicit Arguments.

(* ================================================================== *)
(** * The timing loop and the reduction *)
(* ================================================================== *)

Section BenchmarkFacts.

Import Benchmark.
Local Open Scope float_scope.

(** ** Structure of the timing loop *)

Section RunFacts.

Variable World : Type.
Variable now : World -> Z * World.
Variables us_num us_den : Z.
Variable func : World -> World.

Lemma readings_length (i : nat) (w : World) :
  length (readings now func i w) = i.
Proof.
  revert w; induction i as [|i IH]; intros w; simpl; [reflexivity|].
  destruct (iteration now func w) as [se w']; simpl; now rewrite IH.
Qed.

Lemma run_loop_samples (i : nat) (w : World) (times : list float) :
  fst (run_loop now us_num us_den func i w times)
  = times ++ map (sample_of_readings us_num us_den) (readings now func i w).
Proof.
  revert w times; induction i as [|i IH]; intros w times; simpl.
  - now rewrite app_nil_r.
  - destruct (iteration now func w) as [[start end_] w'].
    rewrite IH, <- app_assoc; reflexivity.
Qed.

Lemma run_loop_length (i : nat) (w : World) (times : list float) :
  length (fst (run_loop now us_num us_den func i w times))
  = (length times + i)%nat.
Proof.
  rewrite run_loop_samples, length_app, length_map, readings_length.
  reflexivity.
Qed.

Lemma samples_length (iters : nat) (w : World) :
  length (samples now us_num us_den func iters w) = iters.
Proof. unfold samples; now rewrite run_loop_length. Qed.

(** [run] returns a result exactly on 1 <= iters <= max_size, and the
    result is the reduction of the gathered samples. *)
Lemma run_returns (iters : nat) (w : World) :
  (1 <= iters)%nat -> (Z.of_nat iters <= vector_max_size)%Z ->
  exists r w',
    run now us_num us_den func iters w = Some (r, w')
    /\ reduce (samples now us_num us_den func iters w) iters = Some r.
Proof.
  intros Hpos Hmax. unfold run, samples.
  destruct (Z.ltb_spec vector_max_size (Z.of_nat iters)) as [Hlt|_]; [lia|].
  pose proof (run_loop_length iters w []) as Hlen.
  destruct (run_loop now us_num us_den func iters w []) as [times w'].
  simpl in *.
  destruct times as [|x rest]; simpl in Hlen; [lia|].
  simpl. eexists; eexists; split; reflexivity.
Qed.

(** Above the capacity of the sample vector [reserve] throws, and with no
    iteration the reduction reads past the empty vector: no result. *)
Lemma run_without_result (iters : nat) (w : World) :
  (iters = 0%nat \/ (vector_max_size < Z.of_nat iters)%Z) ->
  run now us_num us_den func iters w = None.
Proof.
  intros [->|Hbig]; [reflexivity|].
  unfold run. destruct (Z.ltb_spec vector_max_size (Z.of_nat iters)); [reflexivity|lia].
Qed.

End RunFacts.

Lemma fold_left_sq_diff (mean : float) (values : list float) (acc : float) :
  fold_left (fun a value => let diff := value - mean in a + diff * diff)
            values acc
  = fold_left PrimFloat.add
              (map (fun x => (x - mean) * (x - mean)) values) acc.
Proof.
  revert acc; induction values as [|v vs IH]; intros acc; simpl;
    [reflexivity | apply IH].
Qed.

Lemma calculateStdDev_population (values : list float) (mean : float) :
  calculateStdDev values mean = population_std_dev values mean.
Proof.
  unfold calculateStdDev, population_std_dev, sum_seq.
  now rewrite fold_left_sq_diff.
Qed.

Lemma reduce_fields (times : list float) (iters : nat) (r : Result) :
  reduce times iters = Some r ->
  averageTime r = sum_seq times / of_size_t (length times)
  /\ stdDev r = calculateStdDev times (averageTime r)
  /\ iterations r = iters
  /\ exists x rest, times = x :: rest
       /\ minTime r = min_element x rest /\ maxTime r = max_element x rest.
Proof.
  destruct times as [|x rest]; simpl; [discriminate|].
  intros H; injection H as <-; simpl.
  repeat split; eauto.
Qed.

End BenchmarkFacts.

(* ================================================================== *)
(** * The reduction never leaves the ordered, non-negative doubles *)
(* ================================================================== *)

Section FloatRunner.

Import Benchmark.
Local Open Scope float_scope.

Lemma Zdigits2_lt_pow2 (m k : Z) :
  (0 < m < 2 ^ k)%Z -> (Zdigits2 m <= k)%Z.
Proof.
  intros [Hm Hlt]. rewrite Zdigits2_log2 by assumption.
  apply Z.log2_lt_pow2 in Hlt; lia.
Qed.

Lemma of_uint63_shape (n : Uint63.int) :
  sf_signed false (Prim2SF (of_uint63 n))
  /\ sf_below 64 (Prim2SF (of_uint63 n))
  /\ ((0 < Uint63.to_Z n)%Z -> sf_nonzero (Prim2SF (of_uint63 n))).
Proof.
  rewrite of_uint63_spec.
  pose proof (Uint63.to_Z_bounded n) as Hb.
  change Uint63.wB with (2 ^ 63)%Z in Hb.
  destruct (Uint63.to_Z n) as [|m|m]; try lia.
  - simpl. repeat split. lia.
  - cbn [binary_normalize].
    assert (Hd : (Zdigits2 (Zpos m) <= 63)%Z) by (apply Zdigits2_lt_pow2; lia).
    split; [apply binary_round_signed|]. split.
    + apply (binary_round_below false m 0 63); lia.
    + intros _. apply binary_round_nonzero.
      pose proof (Zdigits2_nonneg (Zpos m)). lia.
Qed.

Lemma SFopp_below (k : Z) (x : spec_float) : sf_below k x -> sf_below k (SFopp x).
Proof. destruct x; simpl; tauto. Qed.

Lemma of_int64_below (d : Z) : sf_below 64 (Prim2SF (of_int64 d)).
Proof.
  unfold of_int64. destruct (0 <=? d)%Z.
  - apply of_uint63_shape.
  - destruct (d =? -9223372036854775808)%Z.
    + vm_compute. discriminate.
    + rewrite opp_spec. apply SFopp_below, of_uint63_shape.
Qed.

Lemma sample_finite (d : Z) : f_finite (sample_of_us d).
Proof.
  unfold f_finite, sample_of_us. rewrite div_spec.
  pose proof (of_int64_below d) as Hx.
  apply (SFdiv_below (Prim2SF (of_int64 d)) (Prim2SF 1000) 64
                     false 8796093022208000 (-43)); try assumption;
    try reflexivity; try lia.
  intros sx mx ex Hxe. rewrite Hxe in Hx. cbn [sf_below] in Hx. lia.
Qed.

Lemma of_size_t_shape (n : nat) :
  (1 <= n)%nat -> (Z.of_nat n <= vector_max_size)%Z ->
  sf_signed false (Prim2SF (of_size_t n))
  /\ sf_finite (Prim2SF (of_size_t n))
  /\ sf_nonzero (Prim2SF (of_size_t n)).
Proof.
  intros Hpos Hmax. unfold of_size_t, vector_max_size in *.
  destruct (of_uint63_shape (Uint63.of_Z (Z.of_nat n))) as (Hs & Hb & Hn).
  split; [exact Hs|]. split; [exact (sf_below_finite _ _ Hb)|].
  apply Hn. rewrite Uint63.of_Z_spec.
  change Uint63.wB with (2 ^ 63)%Z. rewrite Z.mod_small; lia.
Qed.

(** ** The reduction on finite samples *)

Lemma accumulate_not_nan (xs : list float) (init : float) :
  Forall f_finite xs -> f_not_nan init -> f_not_nan (accumulate xs init).
Proof.
  unfold accumulate. revert init.
  induction xs as [|x xs IH]; intros init Hxs Hi; simpl; [exact Hi|].
  inversion Hxs as [|? ? Hx Hxs']; subst.
  apply IH; [exact Hxs'|].
  unfold f_not_nan. rewrite add_spec. apply SFadd_not_nan; assumption.
Qed.

Lemma sum_sq_nonneg (mean : float) (values : list float) (acc : float) :
  Forall f_finite values -> f_not_nan mean -> f_nonneg acc ->
  f_nonneg (fold_left (fun a value => let diff := value - mean in a + diff * diff)
                      values acc).
Proof.
  intros Hv Hm. revert acc.
  induction Hv as [|v vs Hfin Hvs IH]; intros acc Hacc; simpl; [exact Hacc|].
  apply IH. unfold f_nonneg. rewrite add_spec, mul_spec.
  apply SFadd_nonneg; [exact Hacc|].
  apply SFmul_square_nonneg. rewrite sub_spec.
  apply SFsub_not_nan; assumption.
Qed.

Lemma zero_nonneg : f_nonneg 0.
Proof. reflexivity. Qed.

Lemma calculateStdDev_nonneg (values : list float) (mean : float) :
  (1 <= length values)%nat -> (Z.of_nat (length values) <= vector_max_size)%Z ->
  Forall f_finite values -> f_not_nan mean ->
  (0 <=? calculateStdDev values mean) = true.
Proof.
  intros Hpos Hmax Hv Hm. unfold calculateStdDev.
  destruct (of_size_t_shape Hpos Hmax) as (Hs & Hf & Hn).
  rewrite leb_spec, sqrt_spec, div_spec.
  apply SFleb_zero_nonneg, SFsqrt_nonneg, SFdiv_nonneg; try assumption.
  apply sum_sq_nonneg; [assumption|assumption|exact zero_nonneg].
Qed.

Lemma mean_not_nan (times : list float) :
  (1 <= length times)%nat -> (Z.of_nat (length times) <= vector_max_size)%Z ->
  Forall f_finite times ->
  f_not_nan (accumulate times 0 / of_size_t (length times)).
Proof.
  intros Hpos Hmax Hv.
  destruct (of_size_t_shape Hpos Hmax) as (Hs & Hf & Hn).
  unfold f_not_nan. rewrite div_spec.
  apply SFdiv_not_nan; try assumption.
  apply accumulate_not_nan; [assumption|exact I].
Qed.

Lemma min_le_max_fold (rest : list float) (lo hi : float) :
  Forall f_not_nan rest -> f_not_nan lo -> f_not_nan hi ->
  (lo <=? hi) = true ->
  (min_element lo rest <=? max_element hi rest) = true.
Proof.
  unfold min_element, max_element. intros Hr. revert lo hi.
  induction Hr as [|y ys Hy Hys IH]; intros lo hi Hlo Hhi Hle; simpl;
    [exact Hle|].
  destruct (y <? lo) eqn:H1; destruct (hi <? y) eqn:H2;
    apply IH; try assumption.
  - rewrite leb_spec. apply SFleb_refl. exact Hy.
  - rewrite leb_spec. apply SFleb_of_not_ltb; try assumption.
    now rewrite <- ltb_spec.
  - rewrite leb_spec. apply SFleb_of_not_ltb; try assumption.
    now rewrite <- ltb_spec.
Qed.

Lemma min_le_max (x : float) (rest : list float) :
  Forall f_finite (x :: rest) ->
  (min_element x rest <=? max_element x rest) = true.
Proof.
  intros H. inversion H as [|? ? Hx Hr]; subst.
  apply min_le_max_fold.
  - eapply Forall_impl; [|exact Hr]. intros a; apply sf_finite_not_nan.
  - apply sf_finite_not_nan, Hx.
  - apply sf_finite_not_nan, Hx.
  - rewrite leb_spec. apply SFleb_refl, sf_finite_not_nan, Hx.
Qed.

Lemma samples_finite (World : Type) (now : World -> Z * World)
      (us_num us_den : Z) (func : World -> World) (iters : nat) (w : World) :
  Forall f_finite (samples now us_num us_den func iters w).
Proof.
  unfold samples. rewrite run_loop_samples. simpl.
  apply Forall_map, Forall_forall. intros se _. apply sample_finite.
Qed.

End FloatRunner.

(* ================================================================== *)
(** * Properties of the benchmark runner *)
(* ================================================================== *)

Section BenchmarkRunner.

Import Benchmark.
Local Open Scope float_scope.

(** C1.  For every run of n >= 1 iterations the returned [stdDev] is the
    population standard deviation of the gathered samples about the returned
    mean, sqrt(sum((x_i - mean)^2) / n) with divisor n, the mean being
    sum(x_i) / n.  In particular the samples 1.0, 2.0, 3.0 give mean 2.0,
    min 1.0, max 3.0 and stddev sqrt(2/3), which is not the value sqrt(2/2)
    that the divisor n - 1 would give. *)
Theorem run_std_dev_is_population
    (World : Type) (now : World -> Z * World) (us_num us_den : Z)
    (func : World -> World) (iters : nat) (w : World)
    (Hpos : (1 <= iters)%nat)
    (Hmax : (Z.of_nat iters <= vector_max_size)%Z) :
  (exists r w',
      run now us_num us_den func iters w = Some (r, w')
      /\ let xs := samples now us_num us_den func iters w in
         length xs = iters
         /\ averageTime r = sum_seq xs / of_size_t iters
         /\ stdDev r = population_std_dev xs (averageTime r))
  /\ (exists w',
        sim_run sleep_1_2_3 3
        = Some (mkResult 2 1 3 (PrimFloat.sqrt (2 / 3)) 3, w')
        /\ samples sim_now 1 1000 (sim_sleep sleep_1_2_3) 3 (O, 0%Z) = [1; 2; 3]
        /\ population_std_dev [1; 2; 3] 2 = PrimFloat.sqrt (2 / 3)
        /\ sample_std_dev [1; 2; 3] 2 = 1
        /\ (PrimFloat.sqrt (2 / 3) <? 1) = true).
Proof.
  split.
  - destruct (run_returns now us_num us_den func w Hpos Hmax)
      as (r & w' & Hrun & Hred).
    exists r, w'. split; [exact Hrun|].
    pose proof (samples_length now us_num us_den func iters w) as Hlen.
    apply reduce_fields in Hred as (Havg & Hsd & _ & _).
    cbv zeta. rewrite Hlen in Havg.
    repeat split; try assumption.
    rewrite Hsd. apply calculateStdDev_population.
  - eexists. repeat split; vm_compute; reflexivity.
Qed.

Lemma run_std_dev_is_population_witness :
  (1 <= 3)%nat /\ (Z.of_nat 3 <= vector_max_size)%Z
  /\ exists r w',
      run sim_now 1 1000 (sim_sleep sleep_1_2_3) 3 (O, 0%Z) = Some (r, w')
      /\ stdDev r
         = population_std_dev
             (samples sim_now 1 1000 (sim_sleep sleep_1_2_3) 3 (O, 0%Z))
             (averageTime r).
Proof.
  assert (H1 : (1 <= 3)%nat) by lia.
  assert (H2 : (Z.of_nat 3 <= vector_max_size)%Z) by (vm_compute; discriminate).
  split; [exact H1|]. split; [exact H2|].
  destruct (run_std_dev_is_population sim_now 1 1000 (sim_sleep sleep_1_2_3)
              (O, 0%Z) H1 H2) as [(r & w' & Hrun & Hxs) _].
  exists r, w'. split; [exact Hrun|]. apply Hxs.
Defined.

(** C2, as stated, fails on doubles: the mean is the rounded quotient of a
    rounded sum and can leave the interval of the samples.  Three samples of
    100 microseconds give an average above the maximum, three samples of 173
    microseconds an average below the minimum. *)
Lemma average_outside_min_max :
  option_map (fun rw => (minTime (fst rw), maxTime (fst rw)))
             (sim_run (constant_delay 100000) 3)
    = Some (sample_of_us 100, sample_of_us 100)
  /\ option_map (fun rw => averageTime (fst rw) <=? maxTime (fst rw))
                (sim_run (constant_delay 100000) 3) = Some false
  /\ option_map (fun rw => maxTime (fst rw) <? averageTime (fst rw))
                (sim_run (constant_delay 100000) 3) = Some true
  /\ option_map (fun rw => minTime (fst rw) <=? averageTime (fst rw))
                (sim_run (constant_delay 173000) 3) = Some false
  /\ option_map (fun rw => averageTime (fst rw) <? minTime (fst rw))
                (sim_run (constant_delay 173000) 3) = Some true.
Proof. repeat split; vm_compute; reflexivity. Qed.

(** C2, amended.  For every operation and every iteration count n >= 1 that
    the sample vector can hold, [run] returns a result with iterations = n,
    minTime <= maxTime and stdDev >= 0 (comparisons of doubles); its
    averageTime is the rounded quotient of the rounded sum of the samples by
    n, a number that is never NaN. *)
Theorem run_result_invariants
    (World : Type) (now : World -> Z * World) (us_num us_den : Z)
    (func : World -> World) (iters : nat) (w : World)
    (Hpos : (1 <= iters)%nat)
    (Hmax : (Z.of_nat iters <= vector_max_size)%Z) :
  exists r w',
    run now us_num us_den func iters w = Some (r, w')
    /\ iterations r = iters
    /\ (minTime r <=? maxTime r) = true
    /\ (0 <=? stdDev r) = true
    /\ averageTime r
       = sum_seq (samples now us_num us_den func iters w) / of_size_t iters
    /\ (averageTime r =? averageTime r) = true.
Proof.
  destruct (run_returns now us_num us_den func w Hpos Hmax)
    as (r & w' & Hrun & Hred).
  exists r, w'. split; [exact Hrun|].
  pose proof (samples_length now us_num us_den func iters w) as Hlen.
  pose proof (samples_finite now us_num us_den func iters w) as Hfin.
  destruct (reduce_fields _ _ Hred)
    as (Havg & Hsd & Hit & x & rest & Hxs & Hmin & Hmaxi).
  assert (Hpos' : (1 <= length (samples now us_num us_den func iters w))%nat)
    by (rewrite Hlen; exact Hpos).
  assert (Hmax' : (Z.of_nat (length (samples now us_num us_den func iters w))
                   <= vector_max_size)%Z)
    by (rewrite Hlen; exact Hmax).
  assert (Hnn : f_not_nan (averageTime r)).
  { rewrite Havg. apply (mean_not_nan Hpos' Hmax' Hfin). }
  split; [exact Hit|]. split; [|split; [|split]].
  - rewrite Hmin, Hmaxi. apply min_le_max. rewrite <- Hxs. exact Hfin.
  - rewrite Hsd. apply calculateStdDev_nonneg; assumption.
  - rewrite Havg, Hlen. reflexivity.
  - rewrite eqb_spec. unfold f_not_nan in Hnn. unfold SFeqb.
    pose proof (SFleb_refl _ Hnn) as Hle. unfold SFleb in Hle.
    pose proof (SFcompare_antisym (Prim2SF (averageTime r))
                                  (Prim2SF (averageTime r))) as Ha.
    destruct (SFcompare (Prim2SF (averageTime r)) (Prim2SF (averageTime r)))
      as [[| |]|]; simpl in *; try reflexivity; discriminate.
Qed.

Lemma run_result_invariants_witness :
  (1 <= 3)%nat /\ (Z.of_nat 3 <= vector_max_size)%Z
  /\ exists r w',
       sim_run (constant_delay 100000) 3 = Some (r, w')
       /\ iterations r = 3%nat
       /\ (minTime r <=? maxTime r) = true
       /\ (0 <=? stdDev r) = true.
Proof.
  assert (H1 : (1 <= 3)%nat) by lia.
  assert (H2 : (Z.of_nat 3 <= vector_max_size)%Z) by (vm_compute; discriminate).
  split; [exact H1|]. split; [exact H2|].
  destruct (run_result_invariants sim_now 1 1000
              (sim_sleep (constant_delay 100000)) (O, 0%Z) H1 H2)
    as (r & w' & Hrun & Hit & Hmm & Hsd & _).
  exists r, w'. repeat split; assumption.
Defined.

(** C8, as stated, fails below one microsecond: on a nanosecond clock an
    operation taking 999 ns, a non-zero sub-millisecond latency above the
    clock's resolution, is recorded as 0. *)
Lemma submicrosecond_latency_recorded_as_zero :
  readings sim_now (sim_sleep (constant_delay 999)) 1 (O, 0%Z) = [(0%Z, 999%Z)]
  /\ duration_cast_us 1 1000 (999 - 0) = 0%Z
  /\ samples sim_now 1 1000 (sim_sleep (constant_delay 999)) 1 (O, 0%Z) = [0]
  /\ option_map (fun rw => averageTime (fst rw))
                (sim_run (constant_delay 999) 1) = Some 0.
Proof. repeat split. Qed.

Lemma submillisecond_samples_checked :
  forallb (fun d => strictly_between_0_and_1 (sample_of_us d))
          submillisecond_counts = true.
Proof. vm_compute. reflexivity. Qed.

Lemma submillisecond_sample_nonzero (d : Z) :
  (1 <= d <= 999)%Z -> strictly_between_0_and_1 (sample_of_us d) = true.
Proof.
  intros Hd.
  pose proof submillisecond_samples_checked as H.
  rewrite forallb_forall in H. apply H.
  unfold submillisecond_counts. apply in_map_iff.
  exists (Z.to_nat d). split; [lia|]. apply in_seq. lia.
Qed.

(** C8, amended.  Every sample is the clock difference converted to a whole
    number d of microseconds, truncating toward zero, and divided by 1000.0
    as a double.  A count of 1 to 999 microseconds gives a sample strictly
    between 0 and 1 (47 microseconds give the double nearest to 0.047), while
    a clock difference of less than one microsecond gives the sample 0. *)
Theorem samples_are_microseconds_over_1000
    (World : Type) (now : World -> Z * World) (us_num us_den : Z)
    (func : World -> World) (iters : nat) (w : World)
    (d ticks : Z)
    (Hd : (1 <= d <= 999)%Z)
    (Hsub : (Z.abs (ticks * us_num) < Z.abs us_den)%Z) :
  samples now us_num us_den func iters w
  = map (fun se => of_int64 (Z.quot ((snd se - fst se) * us_num) us_den) / 1000)
        (readings now func iters w)
  /\ ((0 <? sample_of_us d) = true /\ (sample_of_us d <? 1) = true)
  /\ (Prim2SF (sample_of_us 47) = S754_finite false 6773413839565226 (-57)
      /\ (Z.abs (1000 * 6773413839565226 - 47 * 2 ^ 57) <= 500)%Z)
  /\ (duration_cast_us us_num us_den ticks = 0%Z
      /\ sample_of_us (duration_cast_us us_num us_den ticks) = 0).
Proof.
  split; [|split; [|split]].
  - unfold samples. rewrite run_loop_samples. reflexivity.
  - pose proof (submillisecond_sample_nonzero Hd) as H.
    unfold strictly_between_0_and_1 in H.
    apply andb_true_iff in H. exact H.
  - split; [vm_compute; reflexivity | vm_compute; discriminate].
  - assert (H0 : duration_cast_us us_num us_den ticks = 0%Z).
    { unfold duration_cast_us. apply Z.quot_small_iff; [lia|].
      destruct (Z.abs_spec (ticks * us_num)) as [[? ?]|[? ?]];
        destruct (Z.abs_spec us_den) as [[? ?]|[? ?]]; lia. }
    split; [exact H0|]. rewrite H0. vm_compute. reflexivity.
Qed.

Lemma samples_are_microseconds_over_1000_witness :
  (1 <= 47 <= 999)%Z /\ (Z.abs (999 * 1) < Z.abs 1000)%Z
  /\ samples sim_now 1 1000 (sim_sleep (constant_delay 47000)) 1 (O, 0%Z)
     = [sample_of_us 47]
  /\ (0 <? sample_of_us 47) = true
  /\ sample_of_us (duration_cast_us 1 1000 999) = 0.
Proof.
  assert (H1 : (1 <= 47 <= 999)%Z) by lia.
  assert (H2 : (Z.abs (999 * 1) < Z.abs 1000)%Z) by (simpl; lia).
  split; [exact H1|]. split; [exact H2|].
  destruct (@samples_are_microseconds_over_1000 SimWorld sim_now 1 1000
              (sim_sleep (constant_delay 47000)) 1 (O, 0%Z) 47 999 H1 H2)
    as (Hs & (Hpos & _) & _ & (_ & Hz)).
  split; [rewrite Hs; reflexivity|]. split; [exact Hpos | exact Hz].
Defined.

End BenchmarkRunner.

(* ================================================================== *)
(** * Properties of the lattice backend *)
(* ================================================================== *)

Section LatticeBackend.

Import DilithiumWrapper.

Lemma length_zeros (n : nat) : length (zeros n) = n.
Proof. apply repeat_length. Qed.

Lemma setPublicKey_rejects (s : t) (b : bytes) :
  length b <> PUBLIC_KEY_BYTES -> setPublicKey s b = (false, s).
Proof.
  intros H. unfold setPublicKey.
  destruct (Nat.eqb_spec (length b) PUBLIC_KEY_BYTES); [contradiction|reflexivity].
Qed.

Lemma setSecretKey_rejects (s : t) (b : bytes) :
  length b <> SECRET_KEY_BYTES -> setSecretKey s b = (false, s).
Proof.
  intros H. unfold setSecretKey.
  destruct (Nat.eqb_spec (length b) SECRET_KEY_BYTES); [contradiction|reflexivity].
Qed.

Lemma setPublicKey_accepts (s : t) (b : bytes) :
  length b = PUBLIC_KEY_BYTES ->
  setPublicKey s b = (true, mk b (secretKey_ s) (keysGenerated_ s)).
Proof.
  intros H. unfold setPublicKey. rewrite H, Nat.eqb_refl. reflexivity.
Qed.

Lemma setSecretKey_accepts (s : t) (b : bytes) :
  length b = SECRET_KEY_BYTES ->
  setSecretKey s b = (true, mk (publicKey_ s) b true).
Proof.
  intros H. unfold setSecretKey. rewrite H, Nat.eqb_refl. reflexivity.
Qed.

(** C5.  A public key of a length other than 1952 bytes, and a secret key of
    a length other than 4032 bytes, is refused: the setter returns false and
    the object (public key, secret key and the flag behind hasKeys) is the
    one before the call. *)
Theorem set_key_wrong_size_rejected
    (s : t) (b_pub b_sec : bytes)
    (Hpub : length b_pub <> 1952)
    (Hsec : length b_sec <> 4032) :
  (fst (setPublicKey s b_pub) = false
   /\ publicKey_ (snd (setPublicKey s b_pub)) = publicKey_ s
   /\ secretKey_ (snd (setPublicKey s b_pub)) = secretKey_ s
   /\ hasKeys (snd (setPublicKey s b_pub)) = hasKeys s)
  /\ (fst (setSecretKey s b_sec) = false
      /\ publicKey_ (snd (setSecretKey s b_sec)) = publicKey_ s
      /\ secretKey_ (snd (setSecretKey s b_sec)) = secretKey_ s
      /\ hasKeys (snd (setSecretKey s b_sec)) = hasKeys s).
Proof.
  rewrite (setPublicKey_rejects s _ Hpub), (setSecretKey_rejects s _ Hsec).
  simpl. repeat split.
Qed.

Lemma set_key_wrong_size_rejected_witness :
  let s := mk (zeros 1952) (repeat Byte.x07 4032) true in
  let b_pub := zeros 1951 in
  let b_sec := zeros 1952 in
  length b_pub <> 1952 /\ length b_sec <> 4032
  /\ fst (setPublicKey s b_pub) = false
  /\ secretKey_ (snd (setPublicKey s b_pub)) = secretKey_ s
  /\ fst (setSecretKey s b_sec) = false
  /\ secretKey_ (snd (setSecretKey s b_sec)) = secretKey_ s.
Proof.
  cbv zeta.
  assert (H1 : length (zeros 1951) <> 1952) by (rewrite length_zeros; lia).
  assert (H2 : length (zeros 1952) <> 4032) by (rewrite length_zeros; lia).
  split; [exact H1|]. split; [exact H2|].
  destruct (set_key_wrong_size_rejected
              (mk (zeros 1952) (repeat Byte.x07 4032) true) _ _ H1 H2)
    as ((Ha & _ & Hb & _) & (Hc & _ & Hd & _)).
  repeat split; assumption.
Defined.

(** C9.  Importing a 4032-byte secret key succeeds and raises the flag behind
    hasKeys whatever the object held before, leaving the public key buffer
    alone; importing a 1952-byte public key succeeds and leaves the flag as
    it was.  So a freshly constructed object into which only a secret key was
    imported reports hasKeys while its public key is still the constructor's
    zero buffer: whenever that buffer is not the public half of the imported
    secret key, hasKeys holds without a matching pair being loaded. *)
Theorem import_sets_flag_without_pair
    (s : t) (sk pk : bytes) (matching : bytes -> bytes -> Prop)
    (Hsk : length sk = 4032)
    (Hpk : length pk = 1952)
    (Hzero : ~ matching (zeros 1952) sk) :
  (fst (setSecretKey s sk) = true
   /\ hasKeys (snd (setSecretKey s sk)) = true
   /\ publicKey_ (snd (setSecretKey s sk)) = publicKey_ s
   /\ secretKey_ (snd (setSecretKey s sk)) = sk)
  /\ (fst (setPublicKey s pk) = true
      /\ hasKeys (snd (setPublicKey s pk)) = hasKeys s
      /\ publicKey_ (snd (setPublicKey s pk)) = pk)
  /\ (hasKeys create = false
      /\ hasKeys (snd (setSecretKey create sk)) = true
      /\ ~ matching (publicKey_ (snd (setSecretKey create sk)))
                    (secretKey_ (snd (setSecretKey create sk)))).
Proof.
  rewrite !(setSecretKey_accepts _ _ Hsk), (setPublicKey_accepts _ _ Hpk).
  simpl. repeat split. exact Hzero.
Qed.

Lemma import_sets_flag_without_pair_witness :
  let sk := repeat Byte.x01 4032 in
  length sk = 4032 /\ length (zeros 1952) = 1952
  /\ ~ D.first_byte_matching (zeros 1952) sk
  /\ hasKeys (snd (setSecretKey create sk)) = true
  /\ ~ D.first_byte_matching (publicKey_ (snd (setSecretKey create sk)))
                           (secretKey_ (snd (setSecretKey create sk))).
Proof.
  cbv zeta.
  assert (H1 : length (repeat Byte.x01 4032) = 4032) by apply repeat_length.
  assert (H2 : length (zeros 1952) = 1952) by apply length_zeros.
  assert (H3 : ~ D.first_byte_matching (zeros 1952) (repeat Byte.x01 4032))
    by (unfold D.first_byte_matching; simpl; discriminate).
  split; [exact H1|]. split; [exact H2|]. split; [exact H3|].
  destruct (@import_sets_flag_without_pair create _ _ D.first_byte_matching H1 H2 H3)
    as (_ & _ & _ & Hflag & Hpair).
  split; [exact Hflag | exact Hpair].
Defined.

End LatticeBackend.

(* ================================================================== *)
(** * Properties of the RSA backend and of both backends *)
(* ================================================================== *)

Section Backends.

(** C6.  A backend whose hasKeys is false, as it is from the constructor on
    until keys are generated or imported, signs every message to the empty
    byte sequence and rejects every signature, without consulting the
    external library: this holds for the lattice backend and for the RSA
    backend at any modulus size. *)
Theorem no_keys_sign_empty_verify_false
    (DEnv : Type) (P : D.Primitives DEnv) (d : D.t) (de : DEnv)
    (REnv : Type) (L : R.OpenSSL REnv) (r : R.t) (re : REnv)
    (m sigma : list Byte.byte)
    (Hd : D.hasKeys d = false)
    (Hr : R.hasKeys r = false) :
  (D.sign P d de m = (de, []) /\ D.verify P d m sigma = false)
  /\ (R.sign L r re m = (re, Some []) /\ R.verify L r re m sigma = (re, false))
  /\ (D.hasKeys D.create = false
      /\ forall keySize : Z, R.hasKeys (R.create keySize) = false).
Proof.
  split; [|split].
  - unfold D.hasKeys in Hd. unfold D.sign, D.verify. rewrite Hd. split; reflexivity.
  - unfold R.hasKeys in Hr. unfold R.sign, R.verify.
    destruct (R.pkey_ r); [discriminate|]. split; reflexivity.
  - split; [reflexivity | intros; reflexivity].
Qed.

Lemma no_keys_sign_empty_verify_false_witness :
  D.hasKeys D.create = false /\ R.hasKeys (R.create 3072) = false
  /\ D.sign (D.toy (D.fixed_keypair [] [] 0)) D.create tt [Byte.x48; Byte.x69]
     = (tt, [])
  /\ R.verify R.SimSSL (R.create 3072) (R.sim_init []) [Byte.x48; Byte.x69]
              [Byte.x01]
     = (R.sim_init [], false).
Proof.
  assert (H1 : D.hasKeys D.create = false) by reflexivity.
  assert (H2 : R.hasKeys (R.create 3072) = false) by reflexivity.
  split; [exact H1|]. split; [exact H2|].
  destruct (no_keys_sign_empty_verify_false
              (D.toy (D.fixed_keypair [] [] 0)) D.create tt
              R.SimSSL (R.create 3072) (R.sim_init [])
              [Byte.x48; Byte.x69] [Byte.x01] H1 H2)
    as ((Hs & _) & (_ & Hv) & _).
  split; [exact Hs | exact Hv].
Defined.

(** ** Regeneration of keys *)

Lemma cleanup_state (Env : Type) (L : R.OpenSSL Env) (s : R.t) (e : Env) :
  snd (R.cleanup L s e) = R.cleared s.
Proof. reflexivity. Qed.

Lemma cleanup_cleared (Env : Type) (L : R.OpenSSL Env) (s : R.t) (e : Env) :
  R.cleanup L (R.cleared s) e = (e, R.cleared s).
Proof. reflexivity. Qed.

(** [generateKeys] starts by [cleanup]: it behaves as on an object without
    keys, in the library state in which the handles held have been freed. *)
Lemma generateKeys_after_cleanup
    (Env : Type) (L : R.OpenSSL Env) (s : R.t) (e : Env) :
  R.generateKeys L s e = R.generateKeys L (R.cleared s) (fst (R.cleanup L s e)).
Proof. reflexivity. Qed.

Lemma SimSSL_keygen_contract : R.keygen_failure_leaves_null R.SimSSL.
Proof.
  intros e c e' rc k H Hrc. simpl in H.
  destruct (R.sim_step e (R.Call_keygen c)) as [e1 rc1].
  destruct (Z.leb_spec rc1 0) as [Hle|Hgt].
  - now inversion H.
  - inversion H; subst. lia.
Qed.

(** C10.  [RSABenchmark::generateKeys] calls [cleanup] first, which hands the
    held signing context, verification context and key to the library's free
    functions and nulls the three pointers; generation is then attempted on
    the emptied object.  Hence whenever [generateKeys] returns false, at
    whichever stage it failed, hasKeys is false afterwards, also when the
    object held a key before the call: the failed call does not keep the
    prior keypair. *)
Theorem rsa_failed_generate_leaves_no_keys
    (Env : Type) (L : R.OpenSSL Env) (s : R.t) (e : Env)
    (Hcontract : R.keygen_failure_leaves_null L)
    (Hfail : fst (snd (R.generateKeys L s e)) = false) :
  R.hasKeys (snd (snd (R.generateKeys L s e))) = false
  /\ R.generateKeys L s e = R.generateKeys L (R.cleared s) (fst (R.cleanup L s e))
  /\ snd (R.cleanup L s e) = R.cleared s
  /\ fst (R.cleanup L s e)
     = (let e1 := match R.signCtx_ s with
                  | Some c => R.EVP_PKEY_CTX_free L e c
                  | None => e
                  end in
        let e2 := match R.verifyCtx_ s with
                  | Some c => R.EVP_PKEY_CTX_free L e1 c
                  | None => e1
                  end in
        match R.pkey_ s with
        | Some k => R.EVP_PKEY_free L e2 k
        | None => e2
        end).
Proof.
  split; [|repeat split].
  revert Hfail. unfold R.generateKeys.
  destruct (R.cleanup L s e) as [e0 s0] eqn:Hc.
  assert (Hs0 : s0 = R.cleared s) by (now rewrite <- (cleanup_state L s e), Hc).
  subst s0.
  destruct (R.EVP_PKEY_CTX_new_id L e0 R.EVP_PKEY_RSA) as [e1 [c|]];
    [|reflexivity].
  destruct (R.EVP_PKEY_keygen_init L e1 c) as [e2 rc_init].
  destruct (rc_init <=? 0)%Z; [reflexivity|].
  destruct (R.EVP_PKEY_CTX_set_rsa_keygen_bits L e2 c (R.keySize_ (R.cleared s)))
    as [e3 rc_bits].
  destruct (rc_bits <=? 0)%Z; [reflexivity|].
  simpl R.pkey_.
  destruct (R.EVP_PKEY_keygen L e3 c None) as [e4 [rc_gen pkey]] eqn:Hgen.
  destruct (Z.leb_spec rc_gen 0) as [Hle|Hgt]; simpl.
  - intros _. now rewrite (Hcontract _ _ _ _ _ Hgen Hle).
  - discriminate.
Qed.

Lemma rsa_failed_generate_leaves_no_keys_witness :
  let s := fst R.rsa_with_key in
  let e := R.failing_at_bits (snd R.rsa_with_key) in
  R.keygen_failure_leaves_null R.SimSSL
  /\ fst (snd (R.generateKeys R.SimSSL s e)) = false
  /\ R.hasKeys s = true
  /\ R.hasKeys (snd (snd (R.generateKeys R.SimSSL s e))) = false
  /\ R.sim_log (fst (R.generateKeys R.SimSSL s e))
     = [ R.Call_PKEY_CTX_new_id R.EVP_PKEY_RSA; R.Call_keygen_init 1;
         R.Call_set_rsa_keygen_bits 1 2048; R.Call_keygen 1;
         R.Call_PKEY_CTX_free 1;
         R.Call_PKEY_free 2;
         R.Call_PKEY_CTX_new_id R.EVP_PKEY_RSA; R.Call_keygen_init 3;
         R.Call_set_rsa_keygen_bits 3 2048; R.Call_PKEY_CTX_free 3 ].
Proof.
  cbv zeta.
  assert (Hf : fst (snd (R.generateKeys R.SimSSL (fst R.rsa_with_key)
                           (R.failing_at_bits (snd R.rsa_with_key)))) = false)
    by (vm_compute; reflexivity).
  split; [exact SimSSL_keygen_contract|]. split; [exact Hf|].
  split; [vm_compute; reflexivity|].
  split; [|vm_compute; reflexivity].
  exact (proj1 (@rsa_failed_generate_leaves_no_keys _ R.SimSSL (fst R.rsa_with_key)
                  (R.failing_at_bits (snd R.rsa_with_key))
                  SimSSL_keygen_contract Hf)).
Defined.

End Backends.

(* ================================================================== *)
(** * Regeneration, padding and the analysis block *)
(* ================================================================== *)

Section Regeneration.

Lemma generateKeys_stores_output
    (Env : Type) (P : D.Primitives Env) (d : D.t) (e : Env) :
  D.publicKey_ (snd (snd (D.generateKeys P d e)))
  = fst (fst (snd (D.ref_keypair P e (D.publicKey_ d) (D.secretKey_ d))))
  /\ D.secretKey_ (snd (snd (D.generateKeys P d e)))
     = snd (fst (snd (D.ref_keypair P e (D.publicKey_ d) (D.secretKey_ d)))).
Proof.
  unfold D.generateKeys.
  destruct (D.ref_keypair P e (D.publicKey_ d) (D.secretKey_ d))
    as [e' [[pk sk] [rc|]]]; [|split; reflexivity].
  destruct (negb (rc =? 0)%Z); split; reflexivity.
Qed.

(** After a successful call the object holds nothing that depends on what
    it held before, when the routine's output does not. *)
Lemma generateKeys_forgets
    (Env : Type) (P : D.Primitives Env) (d d' : D.t) (e : Env) :
  D.keypair_ignores_buffers P ->
  length (D.publicKey_ d') = length (D.publicKey_ d) ->
  length (D.secretKey_ d') = length (D.secretKey_ d) ->
  fst (snd (D.generateKeys P d e)) = true ->
  D.generateKeys P d' e = D.generateKeys P d e.
Proof.
  intros Hig Hpk Hsk. unfold D.generateKeys.
  rewrite (Hig e _ _ _ _ Hpk Hsk).
  destruct (D.ref_keypair P e (D.publicKey_ d) (D.secretKey_ d))
    as [e' [[pk sk] [rc|]]]; simpl; [|discriminate].
  destruct (negb (rc =? 0)%Z); simpl; [discriminate|reflexivity].
Qed.




End Regeneration.

Section Padding.

(** The logging library reports lengths a vector can hold. *)
Lemma sim_modulus_bytes_fits (bits : Z) :
  (R.max_size <? Z.of_nat (R.sim_modulus_bytes bits))%Z = false.
Proof.
  apply Z.ltb_ge. unfold R.sim_modulus_bytes, R.max_size.
  assert (H : (Z.quot (Z.min bits 2147483647) 8 <= Z.quot 2147483647 8)%Z)
    by (apply Z.quot_le_mono; lia).
  change (Z.quot 2147483647 8) with 268435455%Z in H. lia.
Qed.

(** C4 does not hold of the code.  The key is generated for the algorithm
    [EVP_PKEY_RSA]; [sign] and [verify] initialise their digest contexts with
    SHA-256, pass a null [pctx] and never set a padding mode, so the contexts
    run with that algorithm's default padding, PKCS #1 v1.5, and not with
    PSS. *)
Theorem rsa_contexts_use_default_padding (keySize : Z) (message : R.bytes) :
  let '(ok, _, _, e) := R.keygen_sign_verify keySize message in
  ok = true
  /\ R.sim_log e
     = [ R.Call_PKEY_CTX_new_id R.EVP_PKEY_RSA; R.Call_keygen_init 1;
         R.Call_set_rsa_keygen_bits 1 keySize; R.Call_keygen 1;
         R.Call_PKEY_CTX_free 1;
         R.Call_MD_CTX_new; R.Call_DigestSignInit 3 false R.EVP_sha256 2;
         R.Call_DigestSign 3 true; R.Call_DigestSign 3 false;
         R.Call_MD_CTX_free 3;
         R.Call_MD_CTX_new; R.Call_DigestVerifyInit 4 false R.EVP_sha256 2;
         R.Call_DigestVerify 4; R.Call_MD_CTX_free 4 ]
  /\ R.sign_contexts (R.sim_log e) = [3%nat]
  /\ R.verify_contexts (R.sim_log e) = [4%nat]
  /\ R.padding_in_force e 3 = Some R.RSA_PKCS1_PADDING
  /\ R.padding_in_force e 4 = Some R.RSA_PKCS1_PADDING
  /\ R.RSA_PKCS1_PADDING <> R.RSA_PKCS1_PSS_PADDING.
Proof.
  unfold R.keygen_sign_verify.
  cbv -[Z.ltb R.max_size Z.of_nat R.sim_modulus_bytes R.padding_in_force
        R.sign_contexts R.verify_contexts].
  rewrite !sim_modulus_bytes_fits.
  cbv -[R.sim_modulus_bytes]. repeat split. discriminate.
Qed.

End Padding.

Section Analysis.

Import Main.
Import String.
Local Open Scope float_scope.

(** C3 does not hold of the code.  The four signing and verification lines
    carry the word the comparison of the averages calls for, but the two key
    generation lines print "slower" unconditionally: with an RSA-2048 key
    generation average of 1 ms against 2 ms for Dilithium the line reads
    0.5x "slower" where the comparison gives "faster". *)
Theorem keygen_lines_print_slower_regardless
    (dKeyGen dSign dVerify r2KeyGen r2Sign r2Verify r3KeyGen r3Sign r3Verify
     : Benchmark.Result) :
  map line_word
      (speed_comparison dKeyGen dSign dVerify r2KeyGen r2Sign r2Verify
                        r3KeyGen r3Sign r3Verify)
  = [ "slower"%string; "slower"%string;
      expected_word r2Sign dSign; expected_word r3Sign dSign;
      expected_word r2Verify dVerify; expected_word r3Verify dVerify ]
  /\ (let d := with_average 2 in
      let rsa := with_average 1 in
      expected_word rsa d = "faster"%string
      /\ nth_error (speed_comparison d d d rsa rsa rsa rsa rsa rsa) 0
         = Some (mkLine "RSA-2048 KeyGen" 0.5 "slower")
      /\ nth_error (speed_comparison d d d rsa rsa rsa rsa rsa rsa) 2
         = Some (mkLine "RSA-2048 Signing" 0.5 "faster")).
Proof.
  split; [reflexivity|].
  cbv zeta. repeat split; vm_compute; reflexivity.
Qed.

End Analysis.

(* ================================================================== *)
(** * Order of doubles *)
(* ================================================================== *)

Section OrderFacts.

Local Open Scope Z_scope.

Ltac cmp_cases :=
  repeat match goal with
         | H : context [Pos.compare_cont Eq ?a ?b] |- _ =>
             change (Pos.compare_cont Eq a b) with (Pos.compare a b) in H
         | |- context [Pos.compare_cont Eq ?a ?b] =>
             change (Pos.compare_cont Eq a b) with (Pos.compare a b)
         end;
  repeat match goal with
         | H : context [Z.compare ?a ?b] |- _ =>
             destruct (Z.compare_spec a b); simpl in H; try discriminate H
         | |- context [Z.compare ?a ?b] =>
             destruct (Z.compare_spec a b); simpl; try reflexivity; try lia
         | H : context [Pos.compare ?a ?b] |- _ =>
             destruct (Pos.compare_spec a b); simpl in H; try discriminate H
         | |- context [Pos.compare ?a ?b] =>
             destruct (Pos.compare_spec a b); simpl; try reflexivity; try lia
         end.

Lemma SFleb_trans (x y z : spec_float) :
  SFleb x y = true -> SFleb y z = true -> SFleb x z = true.
Proof.
  unfold SFleb.
  destruct x as [sx|sx| |sx mx ex], y as [sy|sy| |sy my ey],
           z as [sz|sz| |sz mz ez]; simpl; try discriminate;
    try (destruct sx); try (destruct sy); try (destruct sz); simpl;
    try discriminate; try reflexivity; intros H1 H2;
    cmp_cases; try discriminate; try reflexivity; subst; try lia.
Qed.

End OrderFacts.

(* ================================================================== *)
(** * Sessions on a lattice object: facts *)
(* ================================================================== *)

Section LatticeSessionFacts.

Import DilithiumWrapper LatticeSession.

Variable Env : Type.
Variable P : Primitives Env.

Lemma create_well_sized : well_sized create.
Proof. split; apply repeat_length. Qed.

Lemma after_well_sized (se : t * Env) (c : call) :
  keypair_keeps_lengths P -> well_sized (fst se) -> well_sized (fst (after P se c)).
Proof.
  intros Hk [Hp Hs]. destruct se as [s e]. simpl in Hp, Hs.
  destruct c as [|b|b|m|m sg]; simpl.
  - unfold generateKeys. specialize (Hk e (publicKey_ s) (secretKey_ s)).
    destruct (ref_keypair P e (publicKey_ s) (secretKey_ s))
      as [e' [[pk sk] rc]]. simpl in Hk. destruct Hk as [Hk1 Hk2].
    assert (Hw : forall flag, well_sized (mk pk sk flag))
      by (intros; split; simpl; congruence).
    destruct rc as [rc|]; [destruct (negb (rc =? 0)%Z)|]; simpl; apply Hw.
  - unfold setPublicKey.
    destruct (Nat.eqb_spec (length b) PUBLIC_KEY_BYTES); simpl; split;
      simpl; assumption.
  - unfold setSecretKey.
    destruct (Nat.eqb_spec (length b) SECRET_KEY_BYTES); simpl; split;
      simpl; assumption.
  - split; assumption.
  - split; assumption.
Qed.

End LatticeSessionFacts.

Section LatticeSessions.

Import DilithiumWrapper LatticeSession.

Lemma session_well_sized (Env : Type) (P : Primitives Env)
      (calls : list call) (se : t * Env) :
  keypair_keeps_lengths P -> well_sized (fst se) ->
  well_sized (fst (fold_left (after P) calls se)).
Proof.
  intros Hk. revert se. induction calls as [|c calls IH]; intros se Hw; simpl.
  - exact Hw.
  - apply IH. apply after_well_sized; assumption.
Qed.

Lemma demo_keeps_lengths : keypair_keeps_lengths demo.
Proof. intros e pk sk. simpl. split; apply repeat_length. Qed.

Lemma record_eta (s : t) :
  mk (publicKey_ s) (secretKey_ s) (keysGenerated_ s) = s.
Proof. destruct s; reflexivity. Qed.

(** X1.  Whatever sequence of member functions is called on a constructed
    object, with whatever arguments and whether or not the calls succeed, the
    public-key buffer stays 1952 bytes long and the secret-key buffer 4032
    bytes long (the keypair routine writing through the pointers it is given,
    without resizing the vectors). *)
Theorem lattice_buffers_keep_their_sizes
    (Env : Type) (P : Primitives Env) (e : Env) (calls : list call)
    (Hk : keypair_keeps_lengths P) :
  length (getPublicKey (fst (fold_left (after P) calls (create, e)))) = 1952
  /\ length (getSecretKey (fst (fold_left (after P) calls (create, e)))) = 4032.
Proof.
  apply (@session_well_sized _ P calls (create, e) Hk). exact create_well_sized.
Qed.

Lemma lattice_buffers_keep_their_sizes_witness :
  keypair_keeps_lengths demo
  /\ length (getSecretKey
               (fst (fold_left (after demo)
                               [SetSecretKey [Byte.x01]; GenerateKeys;
                                SetPublicKey []; Sign [Byte.x02]]
                               (create, O)))) = 4032.
Proof.
  split; [exact demo_keeps_lengths|].
  exact (proj2 (@lattice_buffers_keep_their_sizes _ demo O
                  [SetSecretKey [Byte.x01]; GenerateKeys;
                   SetPublicKey []; Sign [Byte.x02]]
                  demo_keeps_lengths)).
Defined.

(** X2.  Exporting the public key and importing it again succeeds and
    leaves the object exactly as it was, in every state a constructed object
    can reach. *)
Theorem public_key_round_trip
    (Env : Type) (P : Primitives Env) (e : Env) (calls : list call)
    (Hk : keypair_keeps_lengths P) :
  let s := fst (fold_left (after P) calls (create, e)) in
  setPublicKey s (getPublicKey s) = (true, s).
Proof.
  cbv zeta.
  destruct (@session_well_sized _ P calls (create, e) Hk create_well_sized)
    as [Hp _].
  unfold setPublicKey, getPublicKey. rewrite Hp, Nat.eqb_refl. simpl.
  now rewrite record_eta.
Qed.

Lemma public_key_round_trip_witness :
  keypair_keeps_lengths demo
  /\ let s := fst (fold_left (after demo) [GenerateKeys] (create, O)) in
     setPublicKey s (getPublicKey s) = (true, s).
Proof.
  split; [exact demo_keeps_lengths|].
  exact (@public_key_round_trip _ demo O [GenerateKeys] demo_keeps_lengths).
Defined.

(** X3.  Exporting the secret key and importing it again succeeds and keeps
    both key buffers, but it raises the flag behind hasKeys: the object is
    unchanged exactly when it already had keys, and on a freshly constructed
    object the round trip turns hasKeys from false to true. *)
Theorem secret_key_round_trip
    (Env : Type) (P : Primitives Env) (e : Env) (calls : list call)
    (Hk : keypair_keeps_lengths P) :
  let s := fst (fold_left (after P) calls (create, e)) in
  setSecretKey s (getSecretKey s)
  = (true, mk (publicKey_ s) (secretKey_ s) true)
  /\ (snd (setSecretKey s (getSecretKey s)) = s <-> hasKeys s = true)
  /\ (hasKeys create = false
      /\ hasKeys (snd (setSecretKey create (getSecretKey create))) = true).
Proof.
  cbv zeta.
  destruct (@session_well_sized _ P calls (create, e) Hk create_well_sized)
    as [_ Hs].
  set (s := fst (fold_left (after P) calls (create, e))) in *.
  assert (Heq : setSecretKey s (getSecretKey s)
                = (true, mk (publicKey_ s) (secretKey_ s) true)).
  { unfold setSecretKey, getSecretKey. rewrite Hs, Nat.eqb_refl. reflexivity. }
  split; [exact Heq|]. split; [|split; reflexivity].
  rewrite Heq. simpl. unfold hasKeys. split.
  - intros H. rewrite <- H. reflexivity.
  - intros H. rewrite <- H. apply record_eta.
Qed.

Lemma secret_key_round_trip_witness :
  keypair_keeps_lengths demo
  /\ let s := fst (fold_left (after demo) [SetPublicKey []] (create, O)) in
     setSecretKey s (getSecretKey s)
     = (true, mk (publicKey_ s) (secretKey_ s) true).
Proof.
  split; [exact demo_keeps_lengths|].
  exact (proj1 (@secret_key_round_trip _ demo O [SetPublicKey []]
                  demo_keeps_lengths)).
Defined.

(** X4.  Importing keys one at a time does not give a usable verifier or
    signer pair.  An object into which only a public key was imported still
    has hasKeys false: it rejects every signature without consulting the
    verification routine, and signs nothing.  An object into which only a
    secret key was imported verifies against the constructor's all-zero
    public key. *)
Theorem single_key_import_behaviour
    (Env : Type) (P : Primitives Env) (e : Env)
    (pk sk m sigma : bytes)
    (Hpk : length pk = 1952)
    (Hsk : length sk = 4032) :
  (fst (setPublicKey create pk) = true
   /\ getPublicKey (snd (setPublicKey create pk)) = pk
   /\ verify P (snd (setPublicKey create pk)) m sigma = false
   /\ sign P (snd (setPublicKey create pk)) e m = (e, []))
  /\ (fst (setSecretKey create sk) = true
      /\ verify P (snd (setSecretKey create sk)) m sigma
         = match ref_verify P sigma m (zeros 1952) with
           | Some rc => (rc =? 0)%Z
           | None => false
           end).
Proof.
  unfold setPublicKey, setSecretKey. rewrite Hpk, Hsk. simpl.
  repeat split.
Qed.

Lemma single_key_import_behaviour_witness :
  length (repeat Byte.x2a 1952) = 1952 /\ length (repeat Byte.x2a 4032) = 4032
  /\ verify demo (snd (setPublicKey create (repeat Byte.x2a 1952)))
            [Byte.x01] [Byte.x2a; Byte.x01] = false.
Proof.
  assert (H1 : length (repeat Byte.x2a 1952) = 1952) by apply repeat_length.
  assert (H2 : length (repeat Byte.x2a 4032) = 4032) by apply repeat_length.
  split; [exact H1|]. split; [exact H2|].
  destruct (@single_key_import_behaviour nat demo O _ _ [Byte.x01]
              [Byte.x2a; Byte.x01] H1 H2) as ((_ & _ & Hv & _) & _).
  exact Hv.
Defined.

(** X5.  With keypair, signing and verification routines that belong
    together, a signature made by [sign] after a successful [generateKeys]
    is accepted by [verify] on the same object: the wrapper stores the two
    generated keys, signs with the secret one, cuts the signature to the
    reported length and verifies it against the public one.  (A reported
    length no vector can hold makes [resize] throw, and [sign] then returns
    the empty vector.) *)
Theorem sign_then_verify_accepts
    (Env : Type) (P : Primitives Env) (s s1 : t) (e e1 e2 e3 : Env)
    (m sigbuf : bytes) (len : nat)
    (Hsound : primitives_sound P)
    (Hgen : generateKeys P s e = (e1, (true, s1)))
    (Hsig : ref_signature P e2 (zeros SIGNATURE_BYTES) m (secretKey_ s1)
            = (e3, Some (0%Z, sigbuf, len))) :
  hasKeys s1 = true
  /\ sign P s1 e2 m
     = (e3, if (max_size <? Z.of_nat len)%Z then [] else resize sigbuf len)
  /\ ((Z.of_nat len <= max_size)%Z ->
      sign P s1 e2 m = (e3, resize sigbuf len)
      /\ verify P s1 m (snd (sign P s1 e2 m)) = true).
Proof.
  unfold generateKeys in Hgen.
  destruct (ref_keypair P e (publicKey_ s) (secretKey_ s))
    as [e' [[pk sk] rc]] eqn:Hkp.
  destruct rc as [rc|]; [|discriminate].
  destruct (Z.eqb_spec rc 0) as [->|Hne]; simpl in Hgen; [|discriminate].
  injection Hgen as <- <-. simpl in Hsig.
  assert (Hs : sign P (mk pk sk true) e2 m
               = (e3, if (max_size <? Z.of_nat len)%Z then []
                      else resize sigbuf len)).
  { unfold sign. cbn [keysGenerated_ secretKey_ negb]. rewrite Hsig.
    cbn [Z.eqb negb]. destruct (max_size <? Z.of_nat len)%Z; reflexivity. }
  split; [reflexivity|]. split; [exact Hs|].
  intros Hlen. rewrite Hs.
  destruct (Z.ltb_spec max_size (Z.of_nat len)) as [Hgt|_]; [lia|].
  split; [reflexivity|]. unfold verify. simpl.
  now rewrite (Hsound _ _ _ _ _ _ Hkp _ _ _ _ _ _ Hsig).
Qed.

Lemma resize_prefix (a b : bytes) : resize (a ++ b) (length a) = a.
Proof.
  unfold resize. rewrite firstn_app, firstn_all, Nat.sub_diag. simpl.
  rewrite length_app.
  replace (length a - (length a + length b))%nat with O by lia.
  simpl. now rewrite !app_nil_r.
Qed.

Lemma hd_repeat (b : Byte.byte) (n : nat) : hd b (repeat b n) = b.
Proof. destruct n; reflexivity. Qed.

Lemma demo_sound : primitives_sound demo.
Proof.
  intros e pk0 sk0 e1 pk sk Hkp e2 buf m e3 sigbuf len Hsig.
  simpl in Hkp, Hsig. unfold demo_keypair in Hkp. unfold demo_signature in Hsig.
  injection Hkp as _ Hpk Hsk. injection Hsig as _ Hbuf Hlen. subst.
  simpl. unfold demo_verify. rewrite !hd_repeat.
  change (Byte.x2a :: m ++ buf) with ((Byte.x2a :: m) ++ buf).
  change (S (length m)) with (length (Byte.x2a :: m)).
  rewrite resize_prefix. unfold bytes_eqb.
  destruct (list_eq_dec Byte.byte_eq_dec (Byte.x2a :: m) (Byte.x2a :: m));
    [reflexivity|contradiction].
Qed.

Lemma sign_then_verify_accepts_witness :
  let s1 := snd (snd (generateKeys demo create O)) in
  primitives_sound demo
  /\ generateKeys demo create O = (1%nat, (true, s1))
  /\ verify demo s1 [Byte.x48; Byte.x69] (snd (sign demo s1 1%nat [Byte.x48; Byte.x69]))
     = true.
Proof.
  cbv zeta.
  assert (Hg : generateKeys demo create O
               = (1%nat, (true, snd (snd (generateKeys demo create O)))))
    by reflexivity.
  split; [exact demo_sound|]. split; [exact Hg|].
  refine (proj2 (proj2 (proj2 (@sign_then_verify_accepts nat demo create _ O
                                 1%nat 1%nat 1%nat [Byte.x48; Byte.x69] _ _
                                 demo_sound Hg eq_refl)) _)).
  vm_compute. discriminate.
Defined.


End LatticeSessions.

(* ================================================================== *)
(** * Sessions on an RSA object: facts *)
(* ================================================================== *)

Section TrackedFacts.

Import RSABenchmark RSASession.

Variable codes : nat -> Z.

Lemma alive_iff (h : nat) (e : Tracked) : alive h e = true <-> In h (tr_live e).
Proof.
  unfold alive. rewrite existsb_exists. split.
  - intros (x & Hx & He). apply Nat.eqb_eq in He. now subst.
  - intros H. exists h. split; [exact H|apply Nat.eqb_refl].
Qed.

Lemma touch_alive (h : nat) (e : Tracked) : In h (tr_live e) -> touch h e = e.
Proof. intros H. unfold touch. apply alive_iff in H. now rewrite H. Qed.

Lemma release_head (h : nat) (l : list nat) (nx cl : nat) (ft : bool) :
  ~ In h l ->
  release h (mkTracked (h :: l) nx cl ft) = mkTracked l nx cl ft.
Proof.
  intros Hn. unfold release. rewrite touch_alive by (simpl; auto). simpl.
  rewrite Nat.eqb_refl. simpl. f_equal.
  induction l as [|x l IH]; simpl; [reflexivity|].
  destruct (Nat.eqb_spec h x) as [->|Hne]; simpl.
  - exfalso. apply Hn. now left.
  - f_equal. apply IH. intros Hin. apply Hn. now right.
Qed.

Lemma release_second (h k nx cl : nat) (ft : bool) :
  h <> k ->
  release h (mkTracked [k; h] nx cl ft) = mkTracked [k] nx cl ft.
Proof.
  intros Hne. unfold release. rewrite touch_alive by (simpl; auto). simpl.
  rewrite Nat.eqb_refl. destruct (Nat.eqb_spec h k); [contradiction|].
  reflexivity.
Qed.

Ltac norm :=
  unfold tick, allocate;
  cbn [tr_live tr_next tr_calls tr_fault fst snd
       signCtx_ verifyCtx_ pkey_ keySize_].

Ltac lib :=
  cbn [EVP_PKEY_CTX_new_id EVP_PKEY_keygen_init EVP_PKEY_CTX_set_rsa_keygen_bits
       EVP_PKEY_keygen EVP_PKEY_CTX_free EVP_PKEY_free EVP_MD_CTX_new
       EVP_MD_CTX_free EVP_DigestSignInit EVP_DigestSign EVP_DigestVerifyInit
       EVP_DigestVerify TrackSSL]; norm.

Lemma accounted_cleanup (s : t) (e : Tracked) :
  accounted s e ->
  exists cl,
    cleanup (TrackSSL codes) s e
    = (mkTracked [] (tr_next e) cl false, cleared s).
Proof.
  intros (Hf & Hs & Hv & Hl & Hn). unfold cleanup. rewrite Hs, Hv.
  destruct e as [live nx cl ft]. simpl in *. subst ft.
  destruct (pkey_ s) as [k|]; subst live.
  - exists (S cl). lib.
    rewrite release_head by (simpl; intuition lia). reflexivity.
  - exists cl. reflexivity.
Qed.

Lemma generateKeys_from_empty (ks : Z) (nx cl : nat) :
  let r := generateKeys (TrackSSL codes) (mk ks None None None)
                        (mkTracked [] nx cl false) in
  accounted (snd (snd r)) (fst r).
Proof.
  cbv zeta. unfold generateKeys, cleanup. lib.
  destruct (codes cl <=? 0)%Z; [repeat split|]. lib.
  rewrite (touch_alive nx) by (simpl; auto).
  destruct (codes (S cl) <=? 0)%Z.
  { lib. rewrite release_head by (simpl; intuition lia). repeat split. }
  lib. rewrite (touch_alive nx) by (simpl; auto).
  destruct (codes (S (S cl)) <=? 0)%Z.
  { lib. rewrite release_head by (simpl; intuition lia). repeat split. }
  lib. rewrite (touch_alive nx) by (simpl; auto).
  destruct (codes (S (S (S cl))) <=? 0)%Z eqn:Hc; lib; rewrite ?Hc; lib.
  - rewrite release_head by (simpl; intuition lia). repeat split.
  - rewrite release_second by lia. repeat split; simpl; lia.
Qed.

Lemma accounted_generateKeys (s : t) (e : Tracked) :
  accounted s e ->
  accounted (snd (snd (generateKeys (TrackSSL codes) s e)))
            (fst (generateKeys (TrackSSL codes) s e)).
Proof.
  intros H. rewrite generateKeys_after_cleanup.
  destruct (accounted_cleanup H) as [cl Hc]. rewrite Hc. cbn [fst].
  apply generateKeys_from_empty.
Qed.

Lemma sign_with_key (ks : Z) (k : EVP_PKEY) (nx cl : nat) (m : bytes) :
  k < nx ->
  exists cl',
    fst (sign (TrackSSL codes) (mk ks (Some k) None None)
              (mkTracked [k] nx cl false) m)
    = mkTracked [k] (if (codes cl <=? 0)%Z then nx else S nx) cl' false.
Proof.
  intros Hk. unfold sign. lib.
  destruct (codes cl <=? 0)%Z; [eexists; reflexivity|]. lib.
  assert (Hne : nx <> k) by lia.
  rewrite (touch_alive nx) by (simpl; auto).
  rewrite (touch_alive k) by (simpl; auto).
  destruct (codes (S cl) <=? 0)%Z.
  { lib. rewrite release_head by (simpl; intuition lia). eexists; reflexivity. }
  lib. rewrite (touch_alive nx) by (simpl; auto).
  destruct (codes (S (S cl)) <=? 0)%Z.
  { lib. rewrite release_head by (simpl; intuition lia). eexists; reflexivity. }
  lib. rewrite (touch_alive nx) by (simpl; auto).
  destruct (codes (S (S (S cl))) <=? 0)%Z;
    lib; rewrite release_head by (simpl; intuition lia); eexists; reflexivity.
Qed.

Lemma verify_with_key (ks : Z) (k : EVP_PKEY) (nx cl : nat) (m sg : bytes) :
  k < nx ->
  exists cl',
    fst (verify (TrackSSL codes) (mk ks (Some k) None None)
                (mkTracked [k] nx cl false) m sg)
    = mkTracked [k] (if (codes cl <=? 0)%Z then nx else S nx) cl' false.
Proof.
  intros Hk. unfold verify. lib.
  destruct (codes cl <=? 0)%Z; [eexists; reflexivity|]. lib.
  assert (Hne : nx <> k) by lia.
  rewrite (touch_alive nx) by (simpl; auto).
  rewrite (touch_alive k) by (simpl; auto).
  destruct (codes (S cl) <=? 0)%Z.
  { lib. rewrite release_head by (simpl; intuition lia). eexists; reflexivity. }
  lib. rewrite (touch_alive nx) by (simpl; auto).
  lib. rewrite release_head by (simpl; intuition lia). eexists; reflexivity.
Qed.

Lemma accounted_sign (s : t) (e : Tracked) (m : bytes) :
  accounted s e -> accounted s (fst (sign (TrackSSL codes) s e m)).
Proof.
  intros (Hf & Hs & Hv & Hl & Hn).
  destruct s as [ks pk sc vc]. destruct e as [live nx cl ft].
  destruct pk as [k|]; simpl in Hf, Hs, Hv, Hl, Hn; subst.
  - destruct (sign_with_key ks cl m Hn) as [cl' ->].
    unfold accounted. simpl. repeat split.
    destruct (codes cl <=? 0)%Z; lia.
  - unfold accounted. simpl. repeat split.
Qed.

Lemma accounted_verify (s : t) (e : Tracked) (m sg : bytes) :
  accounted s e -> accounted s (fst (verify (TrackSSL codes) s e m sg)).
Proof.
  intros (Hf & Hs & Hv & Hl & Hn).
  destruct s as [ks pk sc vc]. destruct e as [live nx cl ft].
  destruct pk as [k|]; simpl in Hf, Hs, Hv, Hl, Hn; subst.
  - destruct (verify_with_key ks cl m sg Hn) as [cl' ->].
    unfold accounted. simpl. repeat split.
    destruct (codes cl <=? 0)%Z; lia.
  - unfold accounted. simpl. repeat split.
Qed.

Lemma accounted_after (se : t * Tracked) (c : call) :
  accounted (fst se) (snd se) ->
  accounted (fst (after (TrackSSL codes) se c)) (snd (after (TrackSSL codes) se c)).
Proof.
  destruct se as [s e]. simpl. intros H. destruct c as [|m|m sg]; simpl.
  - pose proof (accounted_generateKeys H) as Hg.
    destruct (generateKeys (TrackSSL codes) s e) as [e' [ok s']]. exact Hg.
  - apply accounted_sign, H.
  - apply accounted_verify, H.
Qed.

Lemma accounted_session (calls : list call) (se : t * Tracked) :
  accounted (fst se) (snd se) ->
  accounted (fst (fold_left (after (TrackSSL codes)) calls se))
            (snd (fold_left (after (TrackSSL codes)) calls se)).
Proof.
  revert se. induction calls as [|c calls IH]; intros se H; simpl;
    [exact H|]. apply IH, accounted_after, H.
Qed.

End TrackedFacts.

Section RSASessions.

Import RSABenchmark RSASession.

Lemma create_accounted (keySize : Z) : accounted (create keySize) tracked_init.
Proof. unfold accounted. simpl. repeat split. Qed.

(** X7.  Whatever sequence of generateKeys, sign and verify calls is made on
    a constructed object, and whichever library calls fail along the way,
    the wrapper never hands the library a handle that is not alive (no use
    after free, no double free), between calls the only live library object
    is the key the object points to, and after the destructor no library
    object is left alive: every object the library created was released
    exactly once. *)
Theorem rsa_objects_released_exactly_once
    (codes : nat -> Z) (keySize : Z) (calls : list call) :
  let se := fold_left (after (TrackSSL codes)) calls
                      (create keySize, tracked_init) in
  (tr_fault (snd se) = false
   /\ tr_live (snd se) = match pkey_ (fst se) with Some k => [k] | None => [] end)
  /\ (tr_fault (fst (destroy (TrackSSL codes) (fst se) (snd se))) = false
      /\ tr_live (fst (destroy (TrackSSL codes) (fst se) (snd se))) = []
      /\ hasKeys (snd (destroy (TrackSSL codes) (fst se) (snd se))) = false).
Proof.
  cbv zeta.
  pose proof (@accounted_session codes calls (create keySize, tracked_init)
                (create_accounted keySize)) as H.
  destruct (accounted_cleanup codes H) as [cl Hc].
  destruct H as (Hf & _ & _ & Hl & _).
  split; [split; assumption|].
  unfold destroy. rewrite Hc. repeat split.
Qed.


(** X9.  The sizes the RSA backend reports, for a key size in the range of a
    non-negative C [int]: the signature size is the key size divided by 8,
    rounded down, whether or not keys exist; without keys the public and
    private key sizes are 0; with keys the public key size is the signature
    size plus 32 and the private key size five times the signature size. *)
Theorem rsa_reported_sizes
    (s : t) (Hrange : (0 <= keySize_ s < 2 ^ 31)%Z) :
  getSignatureSize s = (keySize_ s / 8)%Z
  /\ (8 * getSignatureSize s <= keySize_ s < 8 * getSignatureSize s + 8)%Z
  /\ (hasKeys s = false ->
      getPublicKeySize s = 0%Z /\ getPrivateKeySize s = 0%Z)
  /\ (hasKeys s = true ->
      getPublicKeySize s = (getSignatureSize s + 32)%Z
      /\ getPrivateKeySize s = (5 * getSignatureSize s)%Z).
Proof.
  unfold getSignatureSize, getPublicKeySize, getPrivateKeySize, hasKeys,
    to_size_t.
  rewrite Z.quot_div_nonneg by lia.
  pose proof (Z.div_pos (keySize_ s) 8 ltac:(lia) ltac:(lia)) as H0.
  pose proof (Z.mul_div_le (keySize_ s) 8 ltac:(lia)) as H1.
  pose proof (Z.mul_succ_div_gt (keySize_ s) 8 ltac:(lia)) as H2.
  assert (H3 : (keySize_ s / 8 < 2 ^ 31)%Z) by lia.
  rewrite !Z.mod_small by lia.
  split; [reflexivity|]. split; [lia|].
  destruct (pkey_ s); split; intros H; try discriminate; split;
    reflexivity || lia.
Qed.

Lemma rsa_reported_sizes_witness :
  (0 <= keySize_ (mk 3072 (Some 2%nat) None None) < 2 ^ 31)%Z
  /\ getSignatureSize (mk 3072 (Some 2%nat) None None) = (3072 / 8)%Z.
Proof.
  assert (H : (0 <= keySize_ (mk 3072 (Some 2%nat) None None) < 2 ^ 31)%Z)
    by (simpl; lia).
  split; [exact H|].
  exact (proj1 (@rsa_reported_sizes (mk 3072 (Some 2%nat) None None) H)).
Defined.

End RSASessions.

(* ================================================================== *)
(** * The random message and the runner: facts *)
(* ================================================================== *)

Section BenchmarkMore.

Import Benchmark RandomMessage.
Local Open Scope float_scope.

Lemma fill_draws (Gen : Type) (next_int : Gen -> Z * Gen) (size : nat) (gen : Gen) :
  fst (fill next_int size gen) = map uint8_of_int (draws next_int size gen).
Proof.
  revert gen. induction size as [|n IH]; intros gen; simpl; [reflexivity|].
  destruct (next_int gen) as [z gen1]. specialize (IH gen1).
  destruct (fill next_int n gen1) as [rest gen2]. simpl in *. now rewrite IH.
Qed.

Lemma draws_length (Gen : Type) (next_int : Gen -> Z * Gen) (n : nat) (gen : Gen) :
  length (draws next_int n gen) = n.
Proof.
  revert gen. induction n as [|n IH]; intros gen; simpl; [reflexivity|].
  destruct (next_int gen) as [z gen1]. simpl. now rewrite IH.
Qed.

Lemma uint8_of_int_value (z : Z) :
  (0 <= z <= 255)%Z -> Z.of_N (Byte.to_N (uint8_of_int z)) = z.
Proof.
  intros Hz. unfold uint8_of_int. rewrite Z.mod_small by lia.
  destruct (Byte.of_N (Z.to_N z)) as [b|] eqn:Hb.
  - apply Byte.to_of_N in Hb. rewrite Hb. lia.
  - apply Byte.of_N_None_iff in Hb. lia.
Qed.

(** X10.  [generateRandomMessage(size)] returns exactly [size] bytes, the
    empty message for size 0; byte i is the i-th draw of the distribution
    cast to a byte, and when the draws lie in [0, 255], as the distribution
    promises, the message holds the draws themselves. *)
Theorem random_message_has_requested_size
    (Gen : Type) (next_int : Gen -> Z * Gen) (size : nat) (gen : Gen)
    (Hrange : Forall (fun z => (0 <= z <= 255)%Z) (draws next_int size gen)) :
  length (generateRandomMessage next_int size gen) = size
  /\ generateRandomMessage next_int 0 gen = []
  /\ generateRandomMessage next_int size gen
     = map uint8_of_int (draws next_int size gen)
  /\ map (fun b => Z.of_N (Byte.to_N b)) (generateRandomMessage next_int size gen)
     = draws next_int size gen.
Proof.
  unfold generateRandomMessage. rewrite fill_draws.
  split; [now rewrite length_map, draws_length|].
  split; [reflexivity|]. split; [reflexivity|].
  rewrite map_map. induction Hrange as [|z zs Hz Hzs IH]; simpl;
    [reflexivity|]. now rewrite uint8_of_int_value, IH.
Qed.

Lemma random_message_has_requested_size_witness :
  Forall (fun z => (0 <= z <= 255)%Z) (draws counting 3 254%Z)
  /\ generateRandomMessage counting 3 254%Z = [Byte.xfe; Byte.xff; Byte.x00].
Proof.
  assert (H : Forall (fun z => (0 <= z <= 255)%Z) (draws counting 3 254%Z))
    by (simpl; repeat constructor; vm_compute; discriminate).
  split; [exact H|].
  destruct (random_message_has_requested_size counting 3 254%Z H)
    as (_ & _ & Hm & _).
  rewrite Hm. reflexivity.
Defined.

(** ** The runner *)

Lemma iteration_world (World : Type) (now : World -> Z * World)
      (func : World -> World) (w : World) :
  snd (iteration now func w) = snd (now (func (snd (now w)))).
Proof.
  unfold iteration. destruct (now w) as [start w1]. simpl.
  destruct (now (func w1)) as [end_ w3]. reflexivity.
Qed.

Lemma run_loop_world (World : Type) (now : World -> Z * World)
      (us_num us_den : Z) (func : World -> World) (i : nat) (w : World)
      (times : list float) :
  snd (run_loop now us_num us_den func i w times)
  = Nat.iter i (fun w0 => snd (now (func (snd (now w0))))) w.
Proof.
  revert w times. induction i as [|i IH]; intros w times; [reflexivity|].
  rewrite Nat.iter_succ_r, <- iteration_world. cbn [run_loop].
  destruct (iteration now func w) as [[start end_] w'] eqn:Hit.
  rewrite IH. reflexivity.
Qed.

(** X11.  A call of [run] with n iterations, 1 <= n within the capacity of
    the sample vector, invokes the operation exactly n times, each time
    between two clock readings and with nothing else in between: the world
    it leaves is the n-fold composition of "read the clock, run the
    operation, read the clock", and it gathers one sample per iteration. *)
Theorem run_invokes_operation_n_times
    (World : Type) (now : World -> Z * World) (us_num us_den : Z)
    (func : World -> World) (iters : nat) (w : World)
    (Hpos : (1 <= iters)%nat)
    (Hmax : (Z.of_nat iters <= vector_max_size)%Z) :
  exists r,
    run now us_num us_den func iters w
    = Some (r, Nat.iter iters
                 (fun w0 => snd (now (func (snd (now w0))))) w)
    /\ length (readings now func iters w) = iters
    /\ length (samples now us_num us_den func iters w) = iters.
Proof.
  destruct (run_returns now us_num us_den func w Hpos Hmax)
    as (r & w' & Hrun & Hred).
  exists r. split; [|split].
  - rewrite Hrun. f_equal. f_equal.
    assert (Hw : w' = snd (run_loop now us_num us_den func iters w [])).
    { unfold run in Hrun.
      destruct (vector_max_size <? Z.of_nat iters)%Z; [discriminate|].
      destruct (run_loop now us_num us_den func iters w []) as [times w''].
      destruct (reduce times iters); [|discriminate].
      now injection Hrun as _ <-. }
    rewrite Hw. apply run_loop_world.
  - apply readings_length.
  - apply samples_length.
Qed.

Lemma run_invokes_operation_n_times_witness :
  (1 <= 3)%nat /\ (Z.of_nat 3 <= vector_max_size)%Z
  /\ option_map (fun rw => fst (snd rw)) (sim_run sleep_1_2_3 3) = Some 3%nat.
Proof.
  assert (H1 : (1 <= 3)%nat) by lia.
  assert (H2 : (Z.of_nat 3 <= vector_max_size)%Z) by (vm_compute; discriminate).
  split; [exact H1|]. split; [exact H2|].
  destruct (run_invokes_operation_n_times sim_now 1 1000
              (sim_sleep sleep_1_2_3) (O, 0%Z) H1 H2) as (r & Hrun & _).
  unfold sim_run. rewrite Hrun. reflexivity.
Defined.

(** ** Order of doubles *)

Lemma fleb_refl (x : float) : f_not_nan x -> (x <=? x) = true.
Proof. intros H. rewrite leb_spec. apply SFleb_refl, H. Qed.

Lemma fleb_trans (x y z : float) :
  (x <=? y) = true -> (y <=? z) = true -> (x <=? z) = true.
Proof. rewrite !leb_spec. apply SFleb_trans. Qed.

Lemma fltb_leb (x y : float) : (x <? y) = true -> (x <=? y) = true.
Proof.
  rewrite ltb_spec, leb_spec. unfold SFltb, SFleb.
  destruct (SFcompare (Prim2SF x) (Prim2SF y)) as [[| |]|]; intros H;
    congruence.
Qed.

Lemma fleb_of_not_ltb (x y : float) :
  f_not_nan x -> f_not_nan y -> (x <? y) = false -> (y <=? x) = true.
Proof.
  intros Hx Hy H. rewrite leb_spec. apply SFleb_of_not_ltb; try assumption.
  now rewrite <- ltb_spec.
Qed.

Lemma min_element_le_start (rest : list float) (lo : float) :
  Forall f_not_nan rest -> f_not_nan lo ->
  (min_element lo rest <=? lo) = true /\ f_not_nan (min_element lo rest).
Proof.
  unfold min_element. intros Hr. revert lo.
  induction Hr as [|y ys Hy Hys IH]; intros lo Hlo; simpl.
  - split; [apply fleb_refl, Hlo|exact Hlo].
  - destruct (y <? lo) eqn:Hlt.
    + destruct (IH y Hy) as [Hle Hnn]. split; [|exact Hnn].
      eapply fleb_trans; [exact Hle|apply fltb_leb, Hlt].
    + apply IH, Hlo.
Qed.

Lemma max_element_ge_start (rest : list float) (hi : float) :
  Forall f_not_nan rest -> f_not_nan hi ->
  (hi <=? max_element hi rest) = true /\ f_not_nan (max_element hi rest).
Proof.
  unfold max_element. intros Hr. revert hi.
  induction Hr as [|y ys Hy Hys IH]; intros hi Hhi; simpl.
  - split; [apply fleb_refl, Hhi|exact Hhi].
  - destruct (hi <? y) eqn:Hlt.
    + destruct (IH y Hy) as [Hle Hnn]. split; [|exact Hnn].
      eapply fleb_trans; [apply fltb_leb, Hlt|exact Hle].
    + apply IH, Hhi.
Qed.

Lemma min_element_le_each (rest : list float) (lo z : float) :
  Forall f_not_nan rest -> f_not_nan lo -> In z rest ->
  (min_element lo rest <=? z) = true.
Proof.
  intros Hr. revert lo.
  induction Hr as [|y ys Hy Hys IH]; intros lo Hlo Hin; [destruct Hin|].
  change (min_element lo (y :: ys))
    with (min_element (if y <? lo then y else lo) ys).
  destruct Hin as [<-|Hin].
  - destruct (y <? lo) eqn:Hlt.
    + apply (proj1 (@min_element_le_start ys y Hys Hy)).
    + eapply fleb_trans; [apply (proj1 (@min_element_le_start ys lo Hys Hlo))|].
      apply fleb_of_not_ltb; assumption.
  - apply IH; [|exact Hin]. destruct (y <? lo); assumption.
Qed.

Lemma max_element_ge_each (rest : list float) (hi z : float) :
  Forall f_not_nan rest -> f_not_nan hi -> In z rest ->
  (z <=? max_element hi rest) = true.
Proof.
  intros Hr. revert hi.
  induction Hr as [|y ys Hy Hys IH]; intros hi Hhi Hin; [destruct Hin|].
  change (max_element hi (y :: ys))
    with (max_element (if hi <? y then y else hi) ys).
  destruct Hin as [<-|Hin].
  - destruct (hi <? y) eqn:Hlt.
    + apply (proj1 (@max_element_ge_start ys y Hys Hy)).
    + eapply fleb_trans; [|apply (proj1 (@max_element_ge_start ys hi Hys Hhi))].
      apply fleb_of_not_ltb; assumption.
  - apply IH; [|exact Hin]. destruct (hi <? y); assumption.
Qed.

Lemma min_element_in (rest : list float) (lo : float) :
  In (min_element lo rest) (lo :: rest).
Proof.
  unfold min_element. revert lo.
  induction rest as [|y ys IH]; intros lo; simpl; [now left|].
  destruct (IH (if y <? lo then y else lo)) as [H|H].
  - destruct (y <? lo); [right; left|left]; exact H.
  - right; right; exact H.
Qed.

Lemma max_element_in (rest : list float) (hi : float) :
  In (max_element hi rest) (hi :: rest).
Proof.
  unfold max_element. revert hi.
  induction rest as [|y ys IH]; intros hi; simpl; [now left|].
  destruct (IH (if hi <? y then y else hi)) as [H|H].
  - destruct (hi <? y); [right; left|left]; exact H.
  - right; right; exact H.
Qed.

Lemma Forall_not_nan (xs : list float) : Forall f_finite xs -> Forall f_not_nan xs.
Proof. apply Forall_impl. intros a. apply sf_finite_not_nan. Qed.

(** X12.  The minimum and the maximum that [run] reports are samples it
    gathered, and they bound every gathered sample: min <= x_i <= max for
    each i, as comparisons of doubles. *)
Theorem min_and_max_bound_every_sample
    (World : Type) (now : World -> Z * World) (us_num us_den : Z)
    (func : World -> World) (iters : nat) (w : World)
    (Hpos : (1 <= iters)%nat)
    (Hmax : (Z.of_nat iters <= vector_max_size)%Z) :
  exists r w',
    run now us_num us_den func iters w = Some (r, w')
    /\ In (minTime r) (samples now us_num us_den func iters w)
    /\ In (maxTime r) (samples now us_num us_den func iters w)
    /\ forall x, In x (samples now us_num us_den func iters w) ->
         (minTime r <=? x) = true /\ (x <=? maxTime r) = true.
Proof.
  destruct (run_returns now us_num us_den func w Hpos Hmax)
    as (r & w' & Hrun & Hred).
  exists r, w'. split; [exact Hrun|].
  pose proof (samples_finite now us_num us_den func iters w) as Hfin.
  destruct (reduce_fields _ _ Hred)
    as (_ & _ & _ & x0 & rest & Hxs & Hmin & Hmaxi).
  rewrite Hxs in *. rewrite Hmin, Hmaxi.
  apply Forall_not_nan in Hfin.
  inversion Hfin as [|? ? Hx0 Hrest]; subst.
  split; [apply min_element_in|]. split; [apply max_element_in|].
  intros x [<-|Hin].
  - split; [apply (proj1 (@min_element_le_start rest x0 Hrest Hx0))
           |apply (proj1 (@max_element_ge_start rest x0 Hrest Hx0))].
  - split; [apply min_element_le_each|apply max_element_ge_each]; assumption.
Qed.

Lemma min_and_max_bound_every_sample_witness :
  (1 <= 3)%nat /\ (Z.of_nat 3 <= vector_max_size)%Z
  /\ exists r w',
       sim_run sleep_1_2_3 3 = Some (r, w')
       /\ (minTime r <=? 2) = true /\ (2 <=? maxTime r) = true.
Proof.
  assert (H1 : (1 <= 3)%nat) by lia.
  assert (H2 : (Z.of_nat 3 <= vector_max_size)%Z) by (vm_compute; discriminate).
  split; [exact H1|]. split; [exact H2|].
  destruct (min_and_max_bound_every_sample sim_now 1 1000
              (sim_sleep sleep_1_2_3) (O, 0%Z) H1 H2)
    as (r & w' & Hrun & _ & _ & Hb).
  exists r, w'. split; [exact Hrun|]. apply Hb.
  right; left. reflexivity.
Defined.

(** ** A clock that does not run backwards *)

Lemma of_int64_nonneg (d : Z) : (0 <= d)%Z -> f_nonneg (of_int64 d).
Proof.
  intros Hd. unfold of_int64, f_nonneg.
  destruct (Z.leb_spec 0 d); [|lia]. apply of_uint63_shape.
Qed.

Lemma sample_nonneg (d : Z) : (0 <= d)%Z -> f_nonneg (sample_of_us d).
Proof.
  intros Hd. unfold f_nonneg, sample_of_us. rewrite div_spec.
  apply SFdiv_nonneg; [apply of_int64_nonneg, Hd| | |]; vm_compute; trivial.
Qed.

Lemma accumulate_nonneg (xs : list float) (init : float) :
  Forall f_nonneg xs -> f_nonneg init -> f_nonneg (accumulate xs init).
Proof.
  unfold accumulate. intros Hxs. revert init.
  induction Hxs as [|x xs Hx Hxs IH]; intros init Hi; simpl; [exact Hi|].
  apply IH. unfold f_nonneg. rewrite add_spec. apply SFadd_nonneg; assumption.
Qed.

Lemma f_nonneg_leb (x : float) : f_nonneg x -> (0 <=? x) = true.
Proof. intros H. rewrite leb_spec. apply SFleb_zero_nonneg, H. Qed.

(** X13.  When the clock does not run backwards during a run (every end
    reading is at least the start reading of its iteration, the tick period
    being positive), every sample is >= 0 and so are the reported minimum,
    average and maximum. *)
Theorem monotonic_clock_gives_nonnegative_times
    (World : Type) (now : World -> Z * World) (us_num us_den : Z)
    (func : World -> World) (iters : nat) (w : World)
    (Hpos : (1 <= iters)%nat)
    (Hmax : (Z.of_nat iters <= vector_max_size)%Z)
    (Hnum : (0 <= us_num)%Z) (Hden : (0 < us_den)%Z)
    (Hmono : Forall (fun se => (fst se <= snd se)%Z) (readings now func iters w)) :
  exists r w',
    run now us_num us_den func iters w = Some (r, w')
    /\ Forall (fun x => (0 <=? x) = true) (samples now us_num us_den func iters w)
    /\ (0 <=? minTime r) = true
    /\ (0 <=? averageTime r) = true
    /\ (0 <=? maxTime r) = true.
Proof.
  destruct (run_returns now us_num us_den func w Hpos Hmax)
    as (r & w' & Hrun & Hred).
  exists r, w'. split; [exact Hrun|].
  assert (Hnn : Forall f_nonneg (samples now us_num us_den func iters w)).
  { unfold samples. rewrite run_loop_samples. simpl.
    apply Forall_map. eapply Forall_impl; [|exact Hmono].
    intros se Hse. simpl in Hse. unfold sample_of_readings. apply sample_nonneg.
    unfold duration_cast_us. apply Z.quot_pos; [|lia].
    apply Z.mul_nonneg_nonneg; lia. }
  pose proof (samples_length now us_num us_den func iters w) as Hlen.
  destruct (reduce_fields _ _ Hred)
    as (Havg & _ & _ & x0 & rest & Hxs & Hmin & Hmaxi).
  rewrite Forall_forall in Hnn.
  split; [|split; [|split]].
  - apply Forall_forall. intros x Hx. apply f_nonneg_leb, Hnn, Hx.
  - apply f_nonneg_leb, Hnn. rewrite Hmin, Hxs. apply min_element_in.
  - apply f_nonneg_leb. rewrite Havg. unfold f_nonneg. rewrite div_spec.
    assert (Hpos' : (1 <= length (samples now us_num us_den func iters w))%nat)
      by (rewrite Hlen; exact Hpos).
    assert (Hmax' : (Z.of_nat (length (samples now us_num us_den func iters w))
                     <= vector_max_size)%Z)
      by (rewrite Hlen; exact Hmax).
    destruct (of_size_t_shape Hpos' Hmax') as (Hs & Hf & Hz).
    apply SFdiv_nonneg; try assumption.
    apply accumulate_nonneg; [apply Forall_forall, Hnn|reflexivity].
  - apply f_nonneg_leb, Hnn. rewrite Hmaxi, Hxs. apply max_element_in.
Qed.

Lemma monotonic_clock_gives_nonnegative_times_witness :
  (1 <= 3)%nat /\ (Z.of_nat 3 <= vector_max_size)%Z
  /\ (0 <= 1)%Z /\ (0 < 1000)%Z
  /\ Forall (fun se => (fst se <= snd se)%Z)
            (readings sim_now (sim_sleep sleep_1_2_3) 3 (O, 0%Z))
  /\ exists r w',
       sim_run sleep_1_2_3 3 = Some (r, w') /\ (0 <=? minTime r) = true.
Proof.
  assert (H1 : (1 <= 3)%nat) by lia.
  assert (H2 : (Z.of_nat 3 <= vector_max_size)%Z) by (vm_compute; discriminate).
  assert (H3 : (0 <= 1)%Z) by lia.
  assert (H4 : (0 < 1000)%Z) by lia.
  assert (H5 : Forall (fun se => (fst se <= snd se)%Z)
                      (readings sim_now (sim_sleep sleep_1_2_3) 3 (O, 0%Z)))
    by (repeat constructor; vm_compute; discriminate).
  repeat (split; [assumption|]).
  destruct (@monotonic_clock_gives_nonnegative_times SimWorld sim_now 1 1000
              (sim_sleep sleep_1_2_3) 3 (O, 0%Z) H1 H2 H3 H4 H5)
    as (r & w' & Hrun & _ & Hmin & _).
  exists r, w'. split; [exact Hrun | exact Hmin].
Defined.

End BenchmarkMore.

(* ================================================================== *)
(** * The printed table: facts *)
(* ================================================================== *)

Section ReportFacts.

Import Benchmark Report.
Import Ascii String.
Local Open Scope string_scope.

Lemma length_append (a b : string) : length (a ++ b) = (length a + length b)%nat.
Proof. induction a as [|c a IH]; simpl; [reflexivity|now rewrite IH]. Qed.

Lemma length_replicate (n : nat) (c : ascii) : length (replicate n c) = n.
Proof. induction n as [|n IH]; simpl; [reflexivity|now rewrite IH]. Qed.

Lemma length_setw_left (w : nat) (s : string) :
  length (setw_left w s) = Nat.max w (length s).
Proof. unfold setw_left. rewrite length_append, length_replicate. lia. Qed.

(** X14.  The comparison table lines up exactly when every field fits its
    column.  The separator line and the title row are 110 characters long
    (line feed included); a data row is as long as the fixed text plus, for
    each of its seven fields, the larger of the column width and the
    length of the field as printed: fields are padded with spaces, never
    cut, so a row is never shorter than the separator and is exactly as
    long if and only if no field exceeds its width (15 for the name, 12 for
    the others).  With averages 0.123, 4.567 and 8.901 and sizes 1952 and
    3309 the row shows the numbers with three decimals. *)
Theorem table_rows_line_up_iff_fields_fit
    (nan_sign : bool) (algorithm keySize : string)
    (keyGen sign verify : Result) (pubKeyBytes sigBytes : N) :
  length printSeparator = 110%nat
  /\ length header_row = 110%nat
  /\ length (printComparisonRow nan_sign algorithm keySize keyGen sign verify
                                pubKeyBytes sigBytes)
     = (23 + list_sum (map (fun f => Nat.max (fst f) (length (snd f)))
                           (row_fields nan_sign algorithm keySize keyGen sign verify
                                       pubKeyBytes sigBytes)))%nat
  /\ (length printSeparator
      <= length (printComparisonRow nan_sign algorithm keySize keyGen sign verify
                                    pubKeyBytes sigBytes))%nat
  /\ (length (printComparisonRow nan_sign algorithm keySize keyGen sign verify
                                 pubKeyBytes sigBytes)
      = length printSeparator
      <-> Forall (fun f => (length (snd f) <= fst f)%nat)
                 (row_fields nan_sign algorithm keySize keyGen sign verify
                             pubKeyBytes sigBytes))
  /\ printComparisonRow nan_sign "Dilithium3" "NIST Level 3"
                        (thousandths 123) (thousandths 4567) (thousandths 8901)
                        1952 3309
     = "| Dilithium3      | NIST Level 3 | 0.123        | 4.567        "
       ++ "| 8.901        | 1952         | 3309         |" ++ newline.
Proof.
  assert (Hrow : length (printComparisonRow nan_sign algorithm keySize keyGen sign
                           verify pubKeyBytes sigBytes)
                 = (23 + list_sum (map (fun f => Nat.max (fst f) (length (snd f)))
                                       (row_fields nan_sign algorithm keySize keyGen
                                          sign verify pubKeyBytes sigBytes)))%nat).
  { unfold printComparisonRow, row_fields.
    rewrite !length_append, !length_setw_left. unfold newline, list_sum.
    cbn [map fold_right fst snd length]. lia. }
  split; [reflexivity|]. split; [reflexivity|]. split; [exact Hrow|].
  change (length printSeparator) with 110%nat. rewrite Hrow.
  unfold row_fields, list_sum. cbn [map fold_right fst snd].
  split; [lia|]. split; [|vm_compute; reflexivity].
  rewrite !Forall_cons_iff. cbn [fst snd]. split.
  - intros H. repeat split; try lia. constructor.
  - intros (H1 & H2 & H3 & H4 & H5 & H6 & H7 & _). lia.
Qed.

End ReportFacts.

(* ================================================================== *)
(** * The demonstration: facts *)
(* ================================================================== *)

Section DemonstrationFacts.

Import DilithiumWrapper Report Demonstration.
Import Ascii String.
Local Open Scope string_scope.

Lemma flip_low_bit_value (b : Byte.byte) :
  Byte.to_N (flip_low_bit b) = N.lxor (Byte.to_N b) 1
  /\ flip_low_bit b <> b
  /\ flip_low_bit (flip_low_bit b) = b.
Proof. destruct b; vm_compute; repeat split; discriminate. Qed.

(** X15.  The tampering of the demonstration changes the message in its
    first byte only, and there in the lowest bit only: the byte's value is
    xor-ed with 1, so the tampered message differs from the signed one,
    has its length, and tampering twice gives the message back.  The
    demonstration's message "Hello, Post-Quantum World!" has 26 bytes and
    becomes "Iello, Post-Quantum World!". *)
Theorem tamper_flips_one_bit (b : Byte.byte) (rest : bytes) :
  tamper (b :: rest) = flip_low_bit b :: rest
  /\ Byte.to_N (flip_low_bit b) = N.lxor (Byte.to_N b) 1
  /\ tamper (b :: rest) <> b :: rest
  /\ List.length (tamper (b :: rest)) = List.length (b :: rest)
  /\ tamper (tamper (b :: rest)) = b :: rest
  /\ List.length message = 26%nat
  /\ tamper message = list_byte_of_string "Iello, Post-Quantum World!".
Proof.
  destruct (flip_low_bit_value b) as (Hv & Hne & Hinv).
  split; [reflexivity|]. split; [exact Hv|]. split.
  - simpl. intros H. injection H as H. contradiction.
  - split; [reflexivity|]. split; [simpl; now rewrite Hinv|].
    split; reflexivity.
Qed.

End DemonstrationFacts.

Section DemonstrationRuns.

Import DilithiumWrapper LatticeSession Report Demonstration.
Import Ascii String.
Local Open Scope string_scope.

Lemma sign_nonempty_verifies
      (Env : Type) (P : Primitives Env) (s s1 : t) (e e1 e2 : Env) (m : bytes) :
  primitives_sound P ->
  generateKeys P s e = (e1, (true, s1)) ->
  snd (sign P s1 e2 m) <> [] ->
  verify P s1 m (snd (sign P s1 e2 m)) = true.
Proof.
  intros Hsound Hgen Hne.
  unfold generateKeys in Hgen.
  destruct (ref_keypair P e (publicKey_ s) (secretKey_ s))
    as [e' [[pk sk] rc]] eqn:Hkp.
  destruct rc as [rc|]; [|discriminate].
  destruct (Z.eqb_spec rc 0) as [->|Hrc]; simpl in Hgen; [|discriminate].
  injection Hgen as <- <-.
  unfold sign in *. simpl in *.
  destruct (ref_signature P e2 (zeros SIGNATURE_BYTES) m sk)
    as [e3 [[[rc sigbuf] len]|]] eqn:Hsig; simpl in *; [|contradiction].
  destruct (Z.eqb_spec rc 0) as [->|Hrc]; simpl in *; [|contradiction].
  destruct (max_size <? Z.of_nat len)%Z; simpl in *; [contradiction|].
  unfold verify. simpl.
  now rewrite (Hsound _ _ _ _ _ _ Hkp _ _ _ _ _ _ Hsig).
Qed.

(** X16.  The demonstration stops at the first failure and reports it on
    the error stream: after a failed key generation it writes the banner,
    step 1 and the failure line, and signs nothing; after an empty signature
    it writes up to step 3 and the failure line, and verifies nothing.  The
    error stream stays empty exactly when both steps succeed, and then, with
    keypair, signing and verification routines that belong together, step 4
    reports the signature as VALID, while step 5 reports what the
    verification routine says about the message with its first byte's low
    bit flipped. *)
Theorem demonstration_stops_at_first_failure
    (Env : Type) (P : Primitives Env) (e : Env)
    (Hsound : primitives_sound P) :
  let g := generateKeys P create e in
  let s := sign P (snd (snd g)) (fst g) message in
  let r := demonstrateBasicUsage P e in
  (fst (snd g) = false ->
   r = ((banner ++ [step1; keygen_failure])%list, fst g))
  /\ (fst (snd g) = true -> snd s = [] ->
      r = ((banner ++ [step1] ++ steps_2_3 ++ [sign_failure])%list, fst s))
  /\ (fst (snd g) = true -> snd s <> [] ->
      r = ((banner ++ [step1] ++ steps_2_3
                   ++ steps_4_5 (List.length (snd s)) true
                        (verify P (snd (snd g)) (tamper message) (snd s)))%list,
           fst s))
  /\ (written cerr (fst r) = "" <-> fst (snd g) = true /\ snd s <> []).
Proof.
  cbv zeta. unfold demonstrateBasicUsage.
  destruct (generateKeys P create e) as [e1 [generated s1]] eqn:Hgen.
  cbn [fst snd].
  destruct generated; cbn [negb].
  - pose proof (@sign_nonempty_verifies _ P create s1 e e1 e1 message
                  Hsound Hgen) as Hv.
    destruct (sign P s1 e1 message) as [e2 signature] eqn:Hsig.
    cbn [fst snd] in *.
    destruct signature as [|b signature'].
    + split; [discriminate|]. split; [reflexivity|].
      split; [intros _ H; now contradiction H|].
      split; [discriminate|]. intros [_ H]. now contradiction H.
    + rewrite Hv by discriminate.
      split; [discriminate|]. split; [discriminate|].
      split; [reflexivity|].
      split; [intros _; split; [reflexivity|discriminate]|].
      intros _.
      destruct (verify P s1 (tamper message) (b :: signature')); reflexivity.
  - split; [reflexivity|]. split; [discriminate|]. split; [discriminate|].
    split; [discriminate|]. intros [H _]. discriminate H.
Qed.

Lemma demonstration_stops_at_first_failure_witness :
  primitives_sound demo
  /\ written cerr (fst (demonstrateBasicUsage demo O)) = ""
  /\ demonstrateBasicUsage demo O
     = ((banner ++ [step1] ++ steps_2_3 ++ steps_4_5 27 true false)%list,
        1%nat).
Proof.
  split; [exact demo_sound|].
  destruct (@demonstration_stops_at_first_failure nat demo O demo_sound)
    as (_ & _ & Hfull & Herr).
  split.
  - apply Herr. split; [reflexivity|discriminate].
  - rewrite Hfull; [reflexivity|reflexivity|discriminate].
Defined.

End DemonstrationRuns.

(* ================================================================== *)
(** * The benchmark suite: facts *)
(* ================================================================== *)

Section SuiteFacts.

Import Benchmark DilithiumWrapper Suite.

Lemma run_loop_agree (World : Type) (Inv : World -> Prop)
      (now : World -> Z * World) (us_num us_den : Z)
      (f g : World -> World) :
  (forall w, Inv w -> Inv (snd (now w))) ->
  (forall w, Inv w -> f w = g w /\ Inv (f w)) ->
  forall i w times,
    Inv w ->
    run_loop now us_num us_den f i w times
    = run_loop now us_num us_den g i w times
    /\ Inv (snd (run_loop now us_num us_den f i w times)).
Proof.
  intros Hnow Hfg. induction i as [|i IH]; intros w times Hw.
  - split; [reflexivity|exact Hw].
  - cbn [run_loop]. unfold iteration.
    pose proof (Hnow w Hw) as H1.
    destruct (now w) as [start w1]. cbn [snd] in H1.
    destruct (Hfg w1 H1) as [Heq H2]. rewrite <- Heq.
    pose proof (Hnow (f w1) H2) as H3.
    destruct (now (f w1)) as [end_ w3]. cbn [snd] in H3.
    apply IH, H3.
Qed.

Lemma run_agree (World : Type) (Inv : World -> Prop)
      (now : World -> Z * World) (us_num us_den : Z)
      (f g : World -> World) (iters : nat) (w : World) :
  (forall w, Inv w -> Inv (snd (now w))) ->
  (forall w, Inv w -> f w = g w /\ Inv (f w)) ->
  Inv w ->
  run now us_num us_den f iters w = run now us_num us_den g iters w
  /\ forall r w', run now us_num us_den f iters w = Some (r, w') -> Inv w'.
Proof.
  intros Hnow Hfg Hw. unfold run.
  destruct (vector_max_size <? Z.of_nat iters)%Z; [split; [reflexivity|discriminate]|].
  destruct (@run_loop_agree _ Inv now us_num us_den f g Hnow Hfg iters w [] Hw)
    as [Heq Hinv].
  rewrite <- Heq.
  destruct (run_loop now us_num us_den f iters w []) as [times w1].
  split; [reflexivity|]. intros r w'.
  destruct (reduce times iters); [|discriminate].
  intros H. injection H as _ <-. exact Hinv.
Qed.

Lemma run_iterations (World : Type) (now : World -> Z * World)
      (us_num us_den : Z) (f : World -> World) (iters : nat) (w w' : World)
      (r : Result) :
  run now us_num us_den f iters w = Some (r, w') -> iterations r = iters.
Proof.
  unfold run. destruct (vector_max_size <? Z.of_nat iters)%Z; [discriminate|].
  destruct (run_loop now us_num us_den f iters w []) as [times w1].
  destruct (reduce times iters) as [r0|] eqn:Hred; [|discriminate].
  intros H. injection H as <- _.
  now destruct (reduce_fields _ _ Hred) as (_ & _ & Hi & _).
Qed.

Section Keyless.

Variable Env : Type.
Variable now : Env -> Z * Env.
Variables us_num us_den : Z.
Variables P P' : Primitives Env.
Variable message : bytes.

Hypothesis Hfail : keypair_always_fails P.
Hypothesis Hsame : ref_keypair P' = ref_keypair P.

Lemma keyless_clock (w : Captured Env) :
  keyless w -> keyless (snd (clock now w)).
Proof.
  unfold clock. destruct (now (outside w)) as [ticks e]. exact (fun H => H).
Qed.

Lemma keyless_keygen (w : Captured Env) :
  keyless w -> keygen_op P w = keygen_op P' w /\ keyless (keygen_op P w).
Proof.
  intros [Hk Hs]. unfold keygen_op, generateKeys. rewrite Hsame.
  split; [reflexivity|].
  pose proof (Hfail (outside w) (publicKey_ (dilithium w))
                    (secretKey_ (dilithium w))) as Hrc.
  destruct (ref_keypair P (outside w) (publicKey_ (dilithium w))
                        (secretKey_ (dilithium w))) as [e [[pk sk] rc]].
  cbn [snd] in Hrc. unfold hasKeys in Hk.
  destruct rc as [rc|]; [destruct (Z.eqb_spec rc 0) as [->|Hne]|];
    cbn [negb]; try (split; [exact Hk|exact Hs]).
  now contradiction Hrc.
Qed.

Lemma keyless_sign (Q : Primitives Env) (w : Captured Env) :
  keyless w -> sign_op Q message w = w.
Proof.
  intros [Hk Hs]. unfold sign_op, sign. unfold hasKeys in Hk. rewrite Hk.
  cbn [negb]. destruct w as [e d sg]. cbn [dilithiumSig] in Hs.
  now rewrite Hs.
Qed.

Lemma keyless_phase (e : Env) :
  dilithium_phase now us_num us_den P message e
  = dilithium_phase now us_num us_den P' message e
  /\ forall kg sg vf w,
       dilithium_phase now us_num us_den P message e = Some (kg, sg, vf, w) ->
       iterations kg = KEYGEN_ITERATIONS /\ iterations sg = ITERATIONS
       /\ iterations vf = ITERATIONS /\ keyless w.
Proof.
  unfold dilithium_phase.
  assert (H0 : keyless (mkCaptured e create [])) by (split; reflexivity).
  destruct (@run_agree _ (@keyless Env) (clock now) us_num us_den
              (keygen_op P) (keygen_op P') KEYGEN_ITERATIONS _
              keyless_clock keyless_keygen H0) as [Heq1 Hinv1].
  rewrite <- Heq1.
  destruct (run (clock now) us_num us_den (keygen_op P) KEYGEN_ITERATIONS
                (mkCaptured e create [])) as [[kg w1]|] eqn:Hrun1;
    [|split; [reflexivity|discriminate]].
  specialize (Hinv1 kg w1 eq_refl).
  destruct (keyless_keygen Hinv1) as [Heq2 Hinv2]. rewrite <- Heq2.
  assert (Hs : forall w, keyless w ->
                 sign_op P message w = sign_op P' message w
                 /\ keyless (sign_op P message w)).
  { intros w Hw. rewrite (keyless_sign P Hw), (keyless_sign P' Hw).
    split; [reflexivity|exact Hw]. }
  destruct (@run_agree _ (@keyless Env) (clock now) us_num us_den
              (sign_op P message) (sign_op P' message) ITERATIONS _
              keyless_clock Hs Hinv2) as [Heq3 Hinv3].
  rewrite <- Heq3.
  destruct (run (clock now) us_num us_den (sign_op P message) ITERATIONS
                (keygen_op P w1)) as [[sg w3]|] eqn:Hrun3;
    [|split; [reflexivity|discriminate]].
  specialize (Hinv3 sg w3 eq_refl).
  rewrite (keyless_sign P Hinv3), (keyless_sign P' Hinv3).
  assert (Hv : forall w, keyless w ->
                 verify_op P message w = verify_op P' message w
                 /\ keyless (verify_op P message w)).
  { intros w Hw. split; [reflexivity|exact Hw]. }
  destruct (@run_agree _ (@keyless Env) (clock now) us_num us_den
              (verify_op P message) (verify_op P' message) ITERATIONS _
              keyless_clock Hv Hinv3) as [Heq5 Hinv5].
  rewrite <- Heq5.
  destruct (run (clock now) us_num us_den (verify_op P message) ITERATIONS w3)
    as [[vf w5]|] eqn:Hrun5; [|split; [reflexivity|discriminate]].
  split; [reflexivity|].
  intros kg' sg' vf' w' H. injection H as <- <- <- <-.
  repeat split.
  - exact (run_iterations _ _ _ _ _ _ Hrun1).
  - exact (run_iterations _ _ _ _ _ _ Hrun3).
  - exact (run_iterations _ _ _ _ _ _ Hrun5).
  - apply (Hinv5 vf w5 eq_refl).
  - apply (Hinv5 vf w5 eq_refl).
Qed.

End Keyless.

Lemma phase_returns (Env : Type) (now : Env -> Z * Env) (us_num us_den : Z)
      (P : Primitives Env) (message : bytes) (e : Env) :
  exists kg sg vf w,
    dilithium_phase now us_num us_den P message e = Some (kg, sg, vf, w).
Proof.
  unfold dilithium_phase.
  assert (H10 : (1 <= KEYGEN_ITERATIONS)%nat
                /\ (Z.of_nat KEYGEN_ITERATIONS <= vector_max_size)%Z)
    by (split; [unfold KEYGEN_ITERATIONS; lia|vm_compute; discriminate]).
  assert (H100 : (1 <= ITERATIONS)%nat
                 /\ (Z.of_nat ITERATIONS <= vector_max_size)%Z)
    by (split; [unfold ITERATIONS; lia|vm_compute; discriminate]).
  destruct (run_returns (clock now) us_num us_den (keygen_op P)
              (mkCaptured e create []) (proj1 H10) (proj2 H10))
    as (kg & w1 & -> & _).
  destruct (run_returns (clock now) us_num us_den (sign_op P message)
              (keygen_op P w1) (proj1 H100) (proj2 H100))
    as (sg & w3 & -> & _).
  destruct (run_returns (clock now) us_num us_den (verify_op P message)
              (sign_op P message w3) (proj1 H100) (proj2 H100))
    as (vf & w5 & -> & _).
  now exists kg, sg, vf, w5.
Qed.



End SuiteFacts.
